(** * AxessAI chat participant: intent resolution, scan bookkeeping, API client

    Shallow embedding of the TypeScript sources of the VS Code extension
    (extension.ts in its successive versions, formatters.ts, api-client.ts)
    and proofs of the properties its specification states.

    Conventions of the embedding.
    - A JavaScript string is a [list ascii].  Text outside the ASCII range is
      carried as its UTF-8 bytes; [toLowerCase], [trim], and the regular
      expression classes [\s], [\d], [\w], [\b] act on the ASCII range, where
      they coincide with the JavaScript definitions.
    - A JavaScript number that holds an issue index is a [Z]; [NaN] is [None].
      (JavaScript rounds integers beyond 2^53; such an index is past the end
      of any stored list either way.)
    - The editor's global state is an explicit [State] record threaded through
      the handlers; the remote API, [new URL] and [JSON.parse] are parameters
      gathered in a [World] record.
    - What a handler does to the chat stream and to the network is returned as
      a list of [Event]s, in order. *)

From Stdlib Require Import Ascii String DecimalString ZArith Lia Bool Arith List.
Import ListNotations.

Local Open Scope list_scope.

(** ** Strings *)

Module Str.

Definition str := list ascii.

(** String literal. *)
Definition L (s : string) : str := list_ascii_of_string s.

Definition code (c : ascii) : nat := nat_of_ascii c.

Definition between (lo hi : nat) (c : ascii) : bool :=
  (lo <=? code c) && (code c <=? hi).

(** [\d] *)
Definition is_digit (c : ascii) : bool := between 48 57 c.

(** [\w] = [A-Za-z0-9_] *)
Definition is_word (c : ascii) : bool :=
  between 65 90 c || between 97 122 c || is_digit c || (code c =? 95).

(** [\s] and the characters [trim] strips: TAB, LF, VT, FF, CR, SPACE. *)
Definition is_space (c : ascii) : bool :=
  between 9 13 c || (code c =? 32).

Definition lower_char (c : ascii) : ascii :=
  if between 65 90 c then ascii_of_nat (code c + 32) else c.

Definition upper_char (c : ascii) : ascii :=
  if between 97 122 c then ascii_of_nat (code c - 32) else c.

Definition toLowerCase (s : str) : str := map lower_char s.
Definition toUpperCase (s : str) : str := map upper_char s.

Fixpoint trimStart (s : str) : str :=
  match s with
  | c :: s' => if is_space c then trimStart s' else s
  | [] => []
  end.

Definition trimEnd (s : str) : str := rev (trimStart (rev s)).

Definition trim (s : str) : str := trimEnd (trimStart s).

Fixpoint startsWith (s p : str) {struct p} : bool :=
  match p, s with
  | [], _ => true
  | a :: p', b :: s' => Ascii.eqb a b && startsWith s' p'
  | _ :: _, [] => false
  end.

Definition str_eqb (a b : str) : bool :=
  String.eqb (string_of_list_ascii a) (string_of_list_ascii b).

(** Value of a run of decimal digits, most significant first. *)
Definition digit_val (c : ascii) : Z := Z.of_nat (code c - 48).

Definition decimal (ds : str) : Z :=
  fold_left (fun acc c => (10 * acc + digit_val c)%Z) ds 0%Z.

Fixpoint span (p : ascii -> bool) (s : str) : str * str :=
  match s with
  | c :: s' => if p c then let (a, b) := span p s' in (c :: a, b) else ([], s)
  | [] => ([], [])
  end.

(** [parseInt(s, 10)]: skip leading white space, read an optional sign and the
    longest run of digits; no digit gives [NaN]. *)
Definition parseInt (s : str) : option Z :=
  let s1 := trimStart s in
  let (neg, s2) :=
    match s1 with
    | c :: r => if code c =? 45 then (true, r)
                else if code c =? 43 then (false, r) else (false, s1)
    | [] => (false, s1)
    end in
  match fst (span is_digit s2) with
  | [] => None
  | ds => Some (if neg then (- decimal ds)%Z else decimal ds)
  end.

End Str.

Import Str.

(** ** Regular expressions

    A backtracking matcher with the priorities of the JavaScript engine:
    alternatives left to right, quantifiers greedy, the search for a match
    from the leftmost start position. *)

Module Regex.

Inductive regex : Type :=
| Eps : regex
| Chr : ascii -> regex
| Class : (ascii -> bool) -> regex
| Seq : regex -> regex -> regex
| Alt : regex -> regex -> regex
| Star : regex -> regex
| WordB : regex
| Group : regex -> regex.

Definition Plus (r : regex) : regex := Seq r (Star r).
Definition Opt (r : regex) : regex := Alt r Eps.

Fixpoint Lit (s : str) : regex :=
  match s with
  | [] => Eps
  | c :: s' => Seq (Chr c) (Lit s')
  end.

(** A position in the subject: the character before it and what follows. *)
Definition word_before (prev : option ascii) : bool :=
  match prev with Some c => is_word c | None => false end.

Definition word_after (s : str) : bool :=
  match s with c :: _ => is_word c | [] => false end.

(** Texts captured by the groups closed so far, most recent first. *)
Definition captures := list str.

Definition cont (R : Type) := option ascii -> str -> captures -> option R.

Definition consumed (from rest : str) : str :=
  firstn (length from - length rest) from.

Definition or_else {R} (a : option R) (b : option R) : option R :=
  match a with Some x => Some x | None => b end.

(** One more iteration of a starred expression if it consumes something (an
    empty iteration is refused, as in the JavaScript semantics), else the
    continuation; [fuel] is the length of the subject, which bounds the number
    of non-empty iterations. *)
Fixpoint star_loop {R} (body : cont R -> cont R) (k : cont R) (fuel : nat)
  (prev : option ascii) (s : str) (caps : captures) : option R :=
  match fuel with
  | O => k prev s caps
  | S fuel' =>
      or_else
        (body (fun prev' s' caps' =>
                 if length s' <? length s
                 then star_loop body k fuel' prev' s' caps' else None)
           prev s caps)
        (k prev s caps)
  end.

Fixpoint m {R} (r : regex) (k : cont R) (prev : option ascii) (s : str)
  (caps : captures) : option R :=
  match r with
  | Eps => k prev s caps
  | Chr c =>
      match s with
      | x :: s' => if Ascii.eqb x c then k (Some x) s' caps else None
      | [] => None
      end
  | Class p =>
      match s with
      | x :: s' => if p x then k (Some x) s' caps else None
      | [] => None
      end
  | Seq r1 r2 => m r1 (m r2 k) prev s caps
  | Alt r1 r2 => or_else (m r1 k prev s caps) (m r2 k prev s caps)
  | Star r1 => star_loop (m r1) k (length s) prev s caps
  | WordB =>
      if xorb (word_before prev) (word_after s) then k prev s caps else None
  | Group r1 =>
      m r1 (fun prev' s' caps' => k prev' s' (consumed s s' :: caps'))
        prev s caps
  end.

(** Result of [RegExp.prototype.exec]: the matched text ([match[0]]) and the
    captured groups. *)
Record Match := { matched : str; groups : captures }.

Definition match_here (r : regex) (prev : option ascii) (s : str)
  : option Match :=
  m r (fun _ rest caps =>
         Some {| matched := consumed s rest; groups := rev caps |})
    prev s [].

Fixpoint exec_from (r : regex) (prev : option ascii) (s : str)
  : option Match :=
  match match_here r prev s with
  | Some x => Some x
  | None =>
      match s with
      | c :: s' => exec_from r (Some c) s'
      | [] => None
      end
  end.

Definition exec (r : regex) (s : str) : option Match := exec_from r None s.

Definition test (r : regex) (s : str) : bool :=
  match exec r s with Some _ => true | None => false end.

End Regex.

Import Regex.

(** ** extension.ts, second version: [detectIntent] and its patterns *)

Record Intent := { command : str; content : str }.

(** [/https?:\/\/[^\s]+/] *)
Definition urlPattern : regex :=
  Seq (Lit (L "http"))
    (Seq (Opt (Chr "s"))
       (Seq (Lit (L "://")) (Plus (Class (fun c => negb (is_space c)))))).

(** [/fix|issue|problem|error|violation|#\d+|\b\d+\b/] *)
Definition fixPattern : regex :=
  Alt (Lit (L "fix"))
    (Alt (Lit (L "issue"))
       (Alt (Lit (L "problem"))
          (Alt (Lit (L "error"))
             (Alt (Lit (L "violation"))
                (Alt (Seq (Chr "#") (Plus (Class is_digit)))
                   (Seq WordB (Seq (Plus (Class is_digit)) WordB))))))).

(** [/\b(\d+)\b/] *)
Definition issuePattern : regex :=
  Seq WordB (Seq (Group (Plus (Class is_digit))) WordB).

Definition detectIntent (query : str) : Intent :=
  let query := trim (toLowerCase query) in
  match exec urlPattern query with
  | Some mt => {| command := L "scan"; content := matched mt |}
  | None =>
      if test fixPattern query
      then {| command := L "fix"; content := query |}
      else {| command := L "explain"; content := query |}
  end.

(** ** types.ts *)

Module Issue.
Record t := { id : str; description : str; help : str; html : str;
              impact : str }.
End Issue.

Module DetailedViolation.
Record t := { id : str; help : str; html : str }.
End DetailedViolation.

Record DetailedScanResults :=
  { summary : str; violations : list DetailedViolation.t }.

(** The value stored under a severity key; [Array.isArray] tells the two
    apart. *)
Inductive IssuesValue : Type :=
| IssueArray (issues : list Issue.t)
| NotAnArray.

(** [raw_violations] is the list [Object.entries] enumerates, in the
    enumeration order of the object (the key order of the parsed response);
    [None] is an absent (falsy) field. *)
Record ScanResponse :=
  { url : str;
    scan_result : str;
    raw_violations : option (list (str * IssuesValue)) }.

#[local] Unset Elimination Schemes.
Inductive JSON : Type :=
| JNull
| JBool (b : bool)
| JNumber (n : Z)
| JString (s : str)
| JArray (items : list JSON)
| JObject (members : list (str * JSON)).
#[local] Set Elimination Schemes.

(** ** formatters.ts *)

Definition nl : str := ["010"%char].

Definition push {A} (arr : list A) (x : A) : list A := arr ++ [x].

Definition forEach {A S} (arr : list A) (body : S -> A -> S) (acc : S) : S :=
  fold_left body arr acc.

Definition getSeverityIcon (severity : str) : str :=
  let s := toLowerCase severity in
  if str_eqb s (L "critical") then L "🔴"
  else if str_eqb s (L "serious") then L "🟠"
  else if str_eqb s (L "moderate") then L "🟡"
  else if str_eqb s (L "minor") then L "🔵"
  else L "⚪".

Definition display_line (severity help : str) : str :=
  getSeverityIcon severity ++ L " [" ++ toUpperCase severity ++ L "] " ++ help.

Definition formatScanResults (scanResponse : ScanResponse) : list str :=
  let results := [] in
  let results := push results (L "📊 " ++ scan_result scanResponse) in
  match raw_violations scanResponse with
  | Some entries =>
      forEach entries
        (fun results '(severity, issues) =>
           match issues with
           | IssueArray issues =>
               if 0 <? length issues
               then forEach issues
                      (fun results issue =>
                         push results
                           (display_line severity (Issue.help issue)))
                      results
               else results
           | NotAnArray => results
           end)
        results
  | None => results
  end.

Definition detail (issue : Issue.t) : DetailedViolation.t :=
  {| DetailedViolation.id := Issue.id issue;
     DetailedViolation.help := Issue.help issue;
     DetailedViolation.html := Issue.html issue |}.

Definition extractDetailedScanResults (scanResponse : ScanResponse)
  : DetailedScanResults :=
  let violations := [] in
  let violations :=
    match raw_violations scanResponse with
    | Some entries =>
        forEach entries
          (fun violations '(severity, issues) =>
             match issues with
             | IssueArray issues =>
                 if 0 <? length issues
                 then forEach issues
                        (fun violations issue => push violations (detail issue))
                        violations
                 else violations
             | NotAnArray => violations
             end)
          violations
    | None => violations
    end in
  {| summary := scan_result scanResponse; violations := violations |}.

(** ** api-client.ts *)

(** What a [catch] clause can receive. *)
Inductive Thrown : Type :=
| AxiosError (status : option Z) (code : option str) (message : str)
| OtherError (message : str)
| NotAnError.

(** [error instanceof Error ? error.message : "unknown error"] *)
Definition errorMessage (error : Thrown) : str :=
  match error with
  | AxiosError _ _ message => message
  | OtherError message => message
  | NotAnError => L "unknown error"
  end.

Module Metadata.
Record t := { url : option str; issue_number : option Z; topic : option str }.
End Metadata.

Module IntentAnalysisResult.
Record t := { command : str; content : str; confidence : Z;
              metadata : option Metadata.t }.
End IntentAnalysisResult.

(** The collaborators outside the extension: the HTTP endpoints reached
    through [axios.post] (arguments: request URL, JSON body, API key header),
    the platform's [new URL] and [JSON.parse], and the rendering of an answer
    ([formatAccessibilityResponse], whose layout no property below reads). *)
Record World :=
  { post_scan : str -> JSON -> str -> Thrown + ScanResponse;
    post_query : str -> JSON -> str -> Thrown + JSON;
    post_intent : str -> JSON -> str -> Thrown + IntentAnalysisResult.t;
    URL_parses : str -> bool;
    JSON_parse : str -> Thrown + JSON;
    formatAccessibilityResponse : JSON -> str }.

Inductive Event : Type :=
| Markdown (text : str)
| Post (endpoint : str) (body : JSON) (key : str).

Definition is_post (e : Event) : bool :=
  match e with Post _ _ _ => true | Markdown _ => false end.

Definition queryAccessibilityApi (w : World) (apiUrl command apiKey query : str)
  : list Event * (Thrown + JSON) :=
  let queryData :=
    if startsWith query (L "{") then JSON_parse w query
    else inr (JObject [(L "query", JString query)]) in
  match queryData with
  | inl error =>
      ([], inl (OtherError (L "API request failed: " ++ errorMessage error)))
  | inr queryData =>
      let endpoint := apiUrl ++ L "/api/accessibility/" ++ command in
      match post_query w endpoint queryData apiKey with
      | inr data => ([Post endpoint queryData apiKey], inr data)
      | inl error =>
          ([Post endpoint queryData apiKey],
           inl (OtherError (L "API request failed: " ++ errorMessage error)))
      end
  end.

Definition msg_no_api_key : str :=
  L "API key not configured. Please set your API key in the extension settings.".
Definition msg_no_api_url : str :=
  L "API URL not configured. Please set your API URL in the extension settings.".
Definition msg_bad_key : str :=
  L "Invalid or missing API key. Please check your API key in the extension settings.".
Definition msg_bad_request : str :=
  L "Invalid URL format or request. Please check the URL and try again.".
Definition msg_bad_intent_request : str :=
  L "Invalid request format. Please try again.".
Definition msg_no_connection : str :=
  L "Could not connect to the API server. Please ensure it's running.".

Definition opt_eqb {A} (eqb : A -> A -> bool) (o : option A) (x : A) : bool :=
  match o with Some y => eqb y x | None => false end.

(** The [catch] clause shared by [performAccessibilityScan] and
    [analyzeIntent]: what is thrown on in place of [error]. *)
Definition rethrow (bad_request : str) (error : Thrown) : Thrown :=
  match error with
  | AxiosError status code _ =>
      if opt_eqb Z.eqb status 401%Z then OtherError msg_bad_key
      else if opt_eqb Z.eqb status 400%Z then OtherError bad_request
      else if opt_eqb str_eqb code (L "ECONNREFUSED")
           then OtherError msg_no_connection
      else error
  | _ => error
  end.

Definition performAccessibilityScan (w : World) (apiUrl apiKey target : str)
  : list Event * (Thrown + ScanResponse) :=
  match apiKey with
  | [] => ([], inl (OtherError msg_no_api_key))
  | _ :: _ =>
      match apiUrl with
      | [] => ([], inl (OtherError msg_no_api_url))
      | _ :: _ =>
          let endpoint := apiUrl ++ L "/api/accessibility/scan" in
          let body := JObject [(L "url", JString target)] in
          match post_scan w endpoint body apiKey with
          | inr data => ([Post endpoint body apiKey], inr data)
          | inl error =>
              ([Post endpoint body apiKey], inl (rethrow msg_bad_request error))
          end
      end
  end.

Definition strings (l : list str) : JSON := JArray (map JString l).

Definition analyzeIntent (w : World) (apiUrl apiKey query : str)
  (scan_results previous_commands : list str)
  : list Event * (Thrown + IntentAnalysisResult.t) :=
  match apiKey with
  | [] => ([], inl (OtherError msg_no_api_key))
  | _ :: _ =>
      match apiUrl with
      | [] => ([], inl (OtherError msg_no_api_url))
      | _ :: _ =>
          let endpoint := apiUrl ++ L "/api/accessibility/analyze-intent" in
          let body :=
            JObject
              [(L "query", JString query);
               (L "context",
                JObject [(L "scan_results", strings scan_results);
                         (L "previous_commands", strings previous_commands)])]
          in
          match post_intent w endpoint body apiKey with
          | inr data => ([Post endpoint body apiKey], inr data)
          | inl error =>
              ([Post endpoint body apiKey],
               inl (rethrow msg_bad_intent_request error))
          end
      end
  end.

(** ** extension.ts: what all versions of the chat handler share *)

(** The keys of [extensionContext.globalState] the handlers read and write,
    with the defaults of [globalState.get] as the initial value. *)
Record State :=
  { scanResults : list str;
    detailedScanResults : DetailedScanResults;
    apiUrl : str;
    apiKey : str;
    previousCommands : list str }.

Definition update_detailedScanResults (st : State) (v : DetailedScanResults)
  : State :=
  {| scanResults := scanResults st; detailedScanResults := v;
     apiUrl := apiUrl st; apiKey := apiKey st;
     previousCommands := previousCommands st |}.

Definition update_scanResults (st : State) (v : list str) : State :=
  {| scanResults := v; detailedScanResults := detailedScanResults st;
     apiUrl := apiUrl st; apiKey := apiKey st;
     previousCommands := previousCommands st |}.

Definition update_previousCommands (st : State) (v : list str) : State :=
  {| scanResults := scanResults st;
     detailedScanResults := detailedScanResults st;
     apiUrl := apiUrl st; apiKey := apiKey st; previousCommands := v |}.

Definition initial_state (apiUrl apiKey : str) : State :=
  {| scanResults := [];
     detailedScanResults := {| summary := []; violations := [] |};
     apiUrl := apiUrl; apiKey := apiKey; previousCommands := [] |}.

Record ChatRequest := { request_command : option str; prompt : str }.

(** [arr.slice(-n)] *)
Definition slice_last {A} (n : nat) (arr : list A) : list A :=
  skipn (length arr - n) arr.

(** [arr[i]] for a number [i] *)
Definition at_index {A} (arr : list A) (i : Z) : option A :=
  if (i <? 0)%Z then None else nth_error arr (Z.to_nat i).

Fixpoint map_from {A B} (f : A -> nat -> B) (index : nat) (arr : list A)
  : list B :=
  match arr with
  | [] => []
  | x :: rest => f x index :: map_from f (S index) rest
  end.

Fixpoint join (sep : str) (arr : list str) : str :=
  match arr with
  | [] => []
  | [x] => x
  | x :: rest => x ++ sep ++ join sep rest
  end.

Definition nat_to_str (n : nat) : str :=
  L (DecimalString.NilEmpty.string_of_uint (Nat.to_uint n)).

(** The summary line keeps no number; line [index] is shown as
    [index. line]. *)
Definition numbered (result : str) (index : nat) : str :=
  if index =? 0 then result else nat_to_str index ++ L ". " ++ result.

Definition formattedResults (scanResults : list str) : str :=
  join (nl ++ nl) (map_from numbered 0 scanResults).

(** The icons differ between the versions of the file (two of them carry the
    bytes of a re-encoded copy). *)
Record Icons := { warning : str; searching : str; cross : str }.

Definition icons : Icons :=
  {| warning := L "⚠️"; searching := L "🔍"; cross := L "❌" |}.

Definition icons_reencoded : Icons :=
  {| warning := L "‚ö†Ô∏è"; searching := L "üîç"; cross := L "‚ùå" |}.

Definition scan_failed_text (ic : Icons) (error : Thrown) : str :=
  cross ic ++ L " Error during scan: " ++ errorMessage error ++ nl ++ nl
  ++ L "Please ensure:" ++ nl ++ L "- The URL is accessible" ++ nl
  ++ L "- Your API key is valid" ++ nl ++ L "- The API server is running".

(** The [try] block of every [scan] case: call the scan endpoint, store the
    detailed results, store the display lines, print them. *)
Definition scan_and_store (ic : Icons) (hint : str) (w : World) (target : str)
  (st : State) : State * list Event :=
  let scanning :=
    Markdown (searching ic ++ L " Scanning " ++ target
              ++ L " for accessibility issues...") in
  match performAccessibilityScan w (apiUrl st) (apiKey st) target with
  | (net, inr scanResponse) =>
      let detailed := extractDetailedScanResults scanResponse in
      let st := update_detailedScanResults st detailed in
      let results := formatScanResults scanResponse in
      let st := update_scanResults st results in
      (st,
       scanning :: net
       ++ [Markdown (nl ++ L "# Accessibility Scan Results" ++ nl ++ nl
                     ++ formattedResults results ++ nl ++ nl ++ hint)])
  | (net, inl error) =>
      (st, scanning :: net ++ [Markdown (scan_failed_text ic error)])
  end.

(** [!apiResponse || typeof apiResponse !== "object"] is false *)
Definition is_object (j : JSON) : bool :=
  match j with JArray _ | JObject _ => true | _ => false end.

(** The [try] block of the [fix] and [explain] cases. *)
Definition ask (w : World) (command query failed : str) (st : State)
  : list Event :=
  match queryAccessibilityApi w (apiUrl st) command (apiKey st) query with
  | (net, inr apiResponse) =>
      if is_object apiResponse
      then net ++ [Markdown (formatAccessibilityResponse w apiResponse)]
      else net ++ [Markdown (failed
                             ++ L "Invalid response received from API")]
  | (net, inl error) => net ++ [Markdown (failed ++ errorMessage error)]
  end.

Definition spaces (n : nat) : str := repeat " "%char n.

Definition fix_query (indent : nat) (violation : DetailedViolation.t) : str :=
  L "Fix this accessibility issue:  " ++ nl
  ++ spaces indent ++ L "Description: " ++ DetailedViolation.help violation
  ++ nl
  ++ spaces indent ++ L "HTML Context: " ++ DetailedViolation.html violation.

Definition fix_query_v2 (violation : DetailedViolation.t) : str :=
  L "Fix this accessibility issue:" ++ nl ++ nl
  ++ L "Description: " ++ DetailedViolation.help violation ++ nl ++ nl
  ++ L "HTML Context: " ++ DetailedViolation.html violation.

Definition fix_failed (ic : Icons) : str :=
  cross ic ++ L " Error processing fix request: ".

Definition explain_failed : str := L "Error processing explanation request: ".

Definition msg_no_detail (ic : Icons) : str :=
  warning ic ++ L " Could not find detailed information for this issue.".

(** The part of every [fix] case that follows the computation of [fixIndex]:
    the range check against the display lines, the lookup of the violation
    (one less, for the summary line), the query. *)
Definition fix_at (ic : Icons) (invalid : str) (query : DetailedViolation.t -> str)
  (w : World) (fixIndex : option Z) (st : State) : list Event :=
  match fixIndex with
  | None => [Markdown invalid]
  | Some fixIndex =>
      if ((fixIndex <? 0) || (Z.of_nat (length (scanResults st)) <=? fixIndex))%Z
      then [Markdown invalid]
      else
        match at_index (violations (detailedScanResults st)) (fixIndex - 1) with
        | None => [Markdown (msg_no_detail ic)]
        | Some violation => ask w (L "fix") (query violation) (fix_failed ic) st
        end
  end.

(** ** extension.ts, first version: explicit slash commands only *)

Module V1.

Definition msg_specify_url : str :=
  warning icons
  ++ L " Please specify a URL to scan. Example: `/scan https://example.com`".
Definition msg_invalid_url : str :=
  warning icons
  ++ L " Invalid URL format. Please provide a valid URL including the protocol (http:// or https://)".
Definition hint : str := L "> To fix an issue, use `/fix <issue number>`".
Definition msg_no_scan : str :=
  warning icons ++ L " No scan results available. Please run `/scan <url>` first.".
Definition msg_invalid_issue : str :=
  warning icons
  ++ L " Invalid issue number. Please provide a valid issue number from the scan results.".
Definition msg_specify_topic : str :=
  warning icons
  ++ L " Please specify an issue or guideline to explain. Example: `/explain WCAG 2.1 AA`".

Definition handler (w : World) (request : ChatRequest) (st : State)
  : State * list Event :=
  if opt_eqb str_eqb (request_command request) (L "scan") then
    match prompt request with
    | [] => (st, [Markdown msg_specify_url])
    | _ :: _ =>
        if negb (URL_parses w (prompt request))
        then (st, [Markdown msg_invalid_url])
        else scan_and_store icons hint w (prompt request) st
    end
  else if opt_eqb str_eqb (request_command request) (L "fix") then
    if length (scanResults st) =? 0 then (st, [Markdown msg_no_scan])
    else
      let fixIndex := parseInt (prompt request) in
      (st, fix_at icons msg_invalid_issue (fix_query 24) w fixIndex st)
  else
    match prompt request with
    | [] => (st, [Markdown msg_specify_topic])
    | _ :: _ => (st, ask w (L "explain") (prompt request) explain_failed st)
    end.

End V1.

(** ** extension.ts, second version: intent detected locally *)

Module V2.

Definition msg_provide_url : str :=
  warning icons
  ++ L " Please provide a valid URL to scan. Example: `https://example.com`".
Definition hint : str :=
  L "> To fix an issue, mention the issue number or describe the problem you want to fix.".
Definition msg_no_scan : str :=
  warning icons
  ++ L " No scan results available. Please scan a URL first by providing a website URL.".
Definition msg_invalid_issue : str :=
  warning icons
  ++ L " Please specify a valid issue number from the scan results, or describe the issue you want to fix.".
Definition msg_specify_topic : str :=
  warning icons
  ++ L " Please specify what you'd like me to explain about accessibility.".

(** [issueMatch ? parseInt(issueMatch[1], 10) : -1] *)
Definition fixIndex_of (content : str) : option Z :=
  match exec issuePattern content with
  | Some issueMatch => parseInt (nth 0 (groups issueMatch) [])
  | None => Some (-1)%Z
  end.

Definition handler (w : World) (request : ChatRequest) (st : State)
  : State * list Event :=
  let userQuery := trim (prompt request) in
  let intent := detectIntent userQuery in
  let content := content intent in
  if str_eqb (command intent) (L "scan") then
    match content with
    | [] => (st, [Markdown msg_provide_url])
    | _ :: _ =>
        if negb (URL_parses w content)
        then (st, [Markdown V1.msg_invalid_url])
        else scan_and_store icons hint w content st
    end
  else if str_eqb (command intent) (L "fix") then
    if length (scanResults st) =? 0 then (st, [Markdown msg_no_scan])
    else
      let fixIndex := fixIndex_of content in
      (st, fix_at icons msg_invalid_issue fix_query_v2 w fixIndex st)
  else if str_eqb (command intent) (L "explain") then
    match content with
    | [] => (st, [Markdown msg_specify_topic])
    | _ :: _ => (st, ask w (L "explain") content explain_failed st)
    end
  else (st, []).

End V2.

(** ** extension.ts, later versions: intent analysed by the API *)

(** [a || b] on a possibly absent string *)
Definition or_str (a : option str) (b : str) : str :=
  match a with
  | Some (c :: r) => c :: r
  | _ => b
  end.

(** [metadata?.issue_number || -1] *)
Definition issue_number_or (metadata : option Metadata.t) : Z :=
  match metadata with
  | Some md =>
      match Metadata.issue_number md with
      | Some n => if (n =? 0)%Z then (-1)%Z else n
      | None => (-1)%Z
      end
  | None => (-1)%Z
  end.

Definition metadata_url (metadata : option Metadata.t) : option str :=
  match metadata with Some md => Metadata.url md | None => None end.

Definition metadata_topic (metadata : option Metadata.t) : option str :=
  match metadata with Some md => Metadata.topic md | None => None end.

(** [previousCommands.push(command)] followed by
    [globalState.update("previousCommands", previousCommands.slice(-10))] *)
Definition remember (command : str) (st : State) : State :=
  let previousCommands := push (previousCommands st) command in
  update_previousCommands st (slice_last 10 previousCommands).

Definition msg_no_scan3 : str :=
  warning icons_reencoded
  ++ L " No scan results available. Please provide a website URL to scan first.".
Definition msg_undetermined : str :=
  warning icons_reencoded
  ++ L " I couldn't determine which issue you want to fix. Please specify the issue number or describe the specific problem you want to fix.".
Definition msg_specify_topic3 : str :=
  warning icons_reencoded
  ++ L " Please specify what you'd like me to explain about accessibility.".
Definition hint3 : str :=
  L "> You can ask me to fix any specific issue by mentioning its number or describing the problem.".
Definition msg_general_error (error : Thrown) : str :=
  cross icons_reencoded
  ++ L " An error occurred while processing your request: "
  ++ errorMessage error.

(** The [fix] and [explain] cases, the same in both versions. *)
Definition fix_case (w : World) (ia : IntentAnalysisResult.t) (st : State)
  : State * list Event :=
  if length (scanResults st) =? 0 then (st, [Markdown msg_no_scan3])
  else
    let fixIndex := issue_number_or (IntentAnalysisResult.metadata ia) in
    (st, fix_at icons_reencoded msg_undetermined (fix_query 28) w
           (Some fixIndex) st).

Definition explain_case (w : World) (ia : IntentAnalysisResult.t) (st : State)
  : State * list Event :=
  let topic := or_str (metadata_topic (IntentAnalysisResult.metadata ia))
                 (IntentAnalysisResult.content ia) in
  match topic with
  | [] => (st, [Markdown msg_specify_topic3])
  | _ :: _ => (st, ask w (L "explain") topic explain_failed st)
  end.

Module V3.

Definition msg_provide_url : str :=
  warning icons_reencoded
  ++ L " Please provide a valid URL to scan. Example: `https://example.com`".
Definition msg_invalid_url : str :=
  warning icons_reencoded
  ++ L " Invalid URL format. Please provide a valid URL including the protocol (http:// or https://)".

Definition dispatch (w : World) (ia : IntentAnalysisResult.t) (st : State)
  : State * list Event :=
  let command := IntentAnalysisResult.command ia in
  if str_eqb command (L "scan") then
    let url := or_str (metadata_url (IntentAnalysisResult.metadata ia))
                 (IntentAnalysisResult.content ia) in
    match url with
    | [] => (st, [Markdown msg_provide_url])
    | _ :: _ =>
        if negb (URL_parses w url) then (st, [Markdown msg_invalid_url])
        else scan_and_store icons_reencoded hint3 w url st
    end
  else if str_eqb command (L "fix") then fix_case w ia st
  else if str_eqb command (L "explain") then explain_case w ia st
  else (st, []).

Definition handler (w : World) (request : ChatRequest) (st : State)
  : State * list Event :=
  let userQuery := trim (prompt request) in
  match analyzeIntent w (apiUrl st) (apiKey st) userQuery (scanResults st)
          (slice_last 5 (previousCommands st)) with
  | (net, inr intentAnalysis) =>
      let st := remember (IntentAnalysisResult.command intentAnalysis) st in
      let (st, out) := dispatch w intentAnalysis st in
      (st, net ++ out)
  | (net, inl error) => (st, net ++ [Markdown (msg_general_error error)])
  end.

End V3.

Module V4.

Definition normalizeUrl (url : str) : str :=
  let url := trim url in
  if negb (startsWith url (L "http://")) && negb (startsWith url (L "https://"))
  then L "https://" ++ url
  else url.

Definition msg_provide_url : str :=
  warning icons_reencoded
  ++ L " Please provide a valid URL to scan. Example: `example.com`".
Definition msg_invalid_url : str :=
  warning icons_reencoded
  ++ L " Invalid URL format. Please provide a valid domain name or URL.".

Definition is_explicit (request : ChatRequest) : option str :=
  match request_command request with
  | Some c =>
      if str_eqb c (L "scan") || str_eqb c (L "fix") || str_eqb c (L "explain")
      then Some c else None
  | None => None
  end.

(** The first statement of the [try] block: the intent is built from an
    explicit command, or asked from the API. *)
Definition resolve (w : World) (request : ChatRequest) (st : State)
  : list Event * (Thrown + IntentAnalysisResult.t) :=
  let userQuery := trim (prompt request) in
  match is_explicit request with
  | Some c =>
      ([],
       inr {| IntentAnalysisResult.command := c;
              IntentAnalysisResult.content := trim userQuery;
              IntentAnalysisResult.confidence := 1%Z;
              IntentAnalysisResult.metadata :=
                Some {| Metadata.url := Some (trim userQuery);
                        Metadata.issue_number := None;
                        Metadata.topic := None |} |})
  | None =>
      analyzeIntent w (apiUrl st) (apiKey st) userQuery (scanResults st)
        (slice_last 5 (previousCommands st))
  end.

Definition dispatch (w : World) (ia : IntentAnalysisResult.t) (st : State)
  : State * list Event :=
  let command := IntentAnalysisResult.command ia in
  if str_eqb command (L "scan") then
    let url := or_str (metadata_url (IntentAnalysisResult.metadata ia))
                 (IntentAnalysisResult.content ia) in
    match url with
    | [] => (st, [Markdown msg_provide_url])
    | _ :: _ =>
        let normalizedUrl := normalizeUrl url in
        if negb (URL_parses w normalizedUrl)
        then (st, [Markdown msg_invalid_url])
        else scan_and_store icons_reencoded hint3 w normalizedUrl st
    end
  else if str_eqb command (L "fix") then fix_case w ia st
  else if str_eqb command (L "explain") then explain_case w ia st
  else (st, []).

Definition handler (w : World) (request : ChatRequest) (st : State)
  : State * list Event :=
  match resolve w request st with
  | (net, inr intentAnalysis) =>
      let st := remember (IntentAnalysisResult.command intentAnalysis) st in
      let (st, out) := dispatch w intentAnalysis st in
      (st, net ++ out)
  | (net, inl error) => (st, net ++ [Markdown (msg_general_error error)])
  end.

End V4.

(** ** Vocabulary of the specification *)

(** The stored scan record after a successful scan that returned [r]. *)
Definition stored (r : ScanResponse) (st : State) : State :=
  update_scanResults
    (update_detailedScanResults st (extractDetailedScanResults r))
    (formatScanResults r).

Definition entries_of (r : ScanResponse) : list (str * IssuesValue) :=
  match raw_violations r with Some entries => entries | None => [] end.

Definition issues_of (v : IssuesValue) : list Issue.t :=
  match v with IssueArray issues => issues | NotAnArray => [] end.

(** The issues of a response, each with the severity key it came under, in
    the order of the response. *)
Definition tagged_issues (r : ScanResponse) : list (str * Issue.t) :=
  flat_map (fun e => map (pair (fst e)) (issues_of (snd e))) (entries_of r).

Definition violations_in_response_order (r : ScanResponse)
  : list DetailedViolation.t :=
  map (fun p => detail (snd p)) (tagged_issues r).

(** The order the specification words: critical, serious, moderate, minor,
    and the order of the API within each. *)
Definition severity_order : list str :=
  [L "critical"; L "serious"; L "moderate"; L "minor"].

Definition issues_under (severity : str) (r : ScanResponse) : list Issue.t :=
  match find (fun e => str_eqb (fst e) severity) (entries_of r) with
  | Some e => issues_of (snd e)
  | None => []
  end.

Definition violations_by_severity (r : ScanResponse)
  : list DetailedViolation.t :=
  flat_map (fun severity => map detail (issues_under severity r))
    severity_order.

Definition fix_request (n : str) : ChatRequest :=
  {| request_command := Some (L "fix"); prompt := n |}.

Definition scan_request (target : str) : ChatRequest :=
  {| request_command := Some (L "scan"); prompt := target |}.

(** A guidance outcome: one message on the chat stream, nothing sent. *)
Definition guidance (text : str) : list Event := [Markdown text].

(** A sequence of chat turns, each against the world of its time. *)
Definition run (handler : World -> ChatRequest -> State -> State * list Event)
  (turns : list (World * ChatRequest)) (st : State) : State :=
  fold_left (fun st turn => fst (handler (fst turn) (snd turn) st)) turns st.



(** The display line of a tagged issue. *)
Definition line_of (p : str * Issue.t) : str :=
  display_line (fst p) (Issue.help (snd p)).

(** Sample data. *)
Definition issue_alt : Issue.t :=
  {| Issue.id := L "image-alt";
     Issue.description := L "Ensures <img> elements have alternate text";
     Issue.help := L "Images must have alternate text";
     Issue.html := L "<img src=logo.png>";
     Issue.impact := L "critical" |}.

Definition issue_contrast : Issue.t :=
  {| Issue.id := L "color-contrast";
     Issue.description := L "Ensures the contrast is sufficient";
     Issue.help := L "Elements must have sufficient color contrast";
     Issue.html := L "<p class=dim>";
     Issue.impact := L "minor" |}.

Definition response_minor_first : ScanResponse :=
  {| url := L "https://example.com";
     scan_result := L "Found 2 issues";
     raw_violations :=
       Some [(L "minor", IssueArray [issue_contrast]);
             (L "critical", IssueArray [issue_alt])] |}.

Definition response_one : ScanResponse :=
  {| url := L "https://example.org";
     scan_result := L "Found 1 issue";
     raw_violations := Some [(L "serious", IssueArray [issue_alt])] |}.

(** A world whose scan endpoint answers [r] and whose other endpoints are
    down. *)
Definition world_answering (r : ScanResponse) : World :=
  {| post_scan := fun _ _ _ => inr r;
     post_query := fun _ _ _ => inl (AxiosError None (Some (L "ECONNREFUSED"))
                                       (L "connect ECONNREFUSED"));
     post_intent := fun _ _ _ => inl (AxiosError None (Some (L "ECONNREFUSED"))
                                        (L "connect ECONNREFUSED"));
     URL_parses := fun u => startsWith u (L "http://")
                            || startsWith u (L "https://");
     JSON_parse := fun s =>
       if str_eqb s (L "{}") then inr (JObject [])
       else inl (OtherError (L "Unexpected token"));
     formatAccessibilityResponse := fun _ => L "# Accessibility Response" |}.


Definition configured : State := initial_state (L "http://localhost:8000") (L "sk-test").


Definition explicit (c : string) : World * ChatRequest :=
  (world_answering response_one,
   {| request_command := Some (L c); prompt := L "https://example.org" |}).

Definition fifteen_turns : list (World * ChatRequest) :=
  map explicit
    ["scan"; "fix"; "explain"; "scan"; "scan"; "fix"; "fix"; "explain";
     "explain"; "scan"; "fix"; "explain"; "fix"; "scan"; "explain"]%string.

(** The scan of [target] goes through and the API answers [r]. *)
Definition scan_succeeds (w : World) (target : str) (st : State)
  (r : ScanResponse) : Prop :=
  target <> [] /\ URL_parses w target = true
  /\ snd (performAccessibilityScan w (apiUrl st) (apiKey st) target) = inr r.



Definition example_com : str := L "https://example.com".
Definition example_org : str := L "https://example.org".

(** *** Utterances *)








Definition all (p : ascii -> bool) (t : str) : Prop :=
  Forall (fun c => p c = true) t.














(** What [detectIntent] makes of its argument first. *)
Definition normalized (query : str) : str := trim (toLowerCase query).

(** ** Vocabulary of the further properties *)

(** White space only (or nothing). *)
Definition blank (s : str) : Prop := all is_space s.



(** The two stored keys come from one response, or are still empty. *)
Definition recorded (st : State) : Prop :=
  (scanResults st = [] /\ violations (detailedScanResults st) = [])
  \/ exists r, scanResults st = formatScanResults r
               /\ detailedScanResults st = extractDetailedScanResults r.

(** The number of requests among the events of a turn. *)
Definition posts (events : list Event) : nat := length (filter is_post events).

(** The request a query makes when it is sent wrapped. *)
Definition wrapped_post (command query : str) (st : State) : Event :=
  Post (apiUrl st ++ L "/api/accessibility/" ++ command)
    (JObject [(L "query", JString query)]) (apiKey st).

Definition explicit_request (c prompt : str) : ChatRequest :=
  {| request_command := Some c; prompt := prompt |}.

Definition utterance (prompt : str) : ChatRequest :=
  {| request_command := None; prompt := prompt |}.

(** A turn that ends with a message on the chat stream. *)
Definition answered (events : list Event) : Prop :=
  exists before text, events = before ++ [Markdown text].

(** A scan response that reports no violation. *)
Definition response_clean : ScanResponse :=
  {| url := L "https://example.net";
     scan_result := L "No issues found";
     raw_violations := Some [(L "critical", IssueArray []);
                             (L "minor", IssueArray [])] |}.

(** A turn that sends at most one request and ends with a message. *)
Definition tidy (events : list Event) : Prop :=
  answered events /\ posts events <= 1.

(** The configuration message a scan or an intent analysis fails with
    before it sends anything: the key is looked at first. *)
Definition missing_setting (st : State) : option str :=
  match apiKey st with
  | [] => Some msg_no_api_key
  | _ :: _ =>
      match apiUrl st with
      | [] => Some msg_no_api_url
      | _ :: _ => None
      end
  end.


(** ** formatters.ts: [formatAccessibilityResponse]

    The rendering of an answer, on the value the API returned.  [String] of
    the platform is a parameter ([toString]); an object holds each key
    once. *)

Module Formatters.

(** [!value] is false *)
Definition truthy (value : JSON) : bool :=
  match value with
  | JNull => false
  | JBool b => b
  | JNumber n => negb (n =? 0)%Z
  | JString [] => false
  | JString (_ :: _) => true
  | JArray _ => true
  | JObject _ => true
  end.

Definition fields : list str :=
  [L "answer"; L "explanation"; L "guidelines"; L "examples"].

(** [response[field]], absent when [field in response] is false *)
Definition field_of (response : JSON) (field : str) : option JSON :=
  match response with
  | JObject members =>
      option_map snd (find (fun member => str_eqb (fst member) field) members)
  | _ => None
  end.

Definition is_missing (response : JSON) (field : str) : bool :=
  match field_of response field with Some _ => false | None => true end.

(** The field after the type check of [forEach]: a string is kept, any
    other value becomes [String(value || "")]. *)
Definition validated (toString : JSON -> str) (response : JSON) (field : str)
  : str :=
  match field_of response field with
  | Some (JString s) => s
  | Some value => if truthy value then toString value else []
  | None => []
  end.

(** [text?.trim() || fallback] *)
Definition shown (text fallback : str) : str :=
  match trim text with
  | [] => fallback
  | c :: t => c :: t
  end.

Definition rule : str := nl ++ L "---" ++ nl.

Definition sections (answer explanation guidelines examples : str)
  : list str :=
  [L "# Accessibility Response" ++ nl;
   L "## 💡 Answer";
   answer;
   rule;
   L "## 📝 Detailed Explanation";
   explanation;
   rule;
   L "## 📋 Guidelines Referenced";
   guidelines;
   rule;
   L "## 🔍 Implementation Examples";
   L "```html";
   examples;
   L "```"].

Definition msg_no_response : str :=
  L "❌ Error: No response received from the API".
Definition msg_invalid_type : str :=
  L "❌ Error: Invalid response type received from the API".
Definition msg_missing : str :=
  L "❌ Error: Response is missing required fields: ".

Definition formatAccessibilityResponse (toString : JSON -> str)
  (response : JSON) : str :=
  if negb (truthy response) then msg_no_response
  else if negb (is_object response) then msg_invalid_type
  else
    let missingFields := filter (is_missing response) fields in
    if 0 <? length missingFields
    then msg_missing ++ join (L ", ") missingFields
    else
      let answer :=
        shown (validated toString response (L "answer"))
          (L "No answer provided") in
      let explanation :=
        shown (validated toString response (L "explanation"))
          (L "No explanation provided") in
      let guidelines :=
        shown (validated toString response (L "guidelines"))
          (L "No guidelines provided") in
      let examples :=
        shown (validated toString response (L "examples"))
          (L "No examples provided") in
      join nl (sections answer explanation guidelines examples).

End Formatters.

(** An answer of the declared type: four strings. *)
Definition answer_of (answer explanation guidelines examples : str) : JSON :=
  JObject [(L "answer", JString answer);
           (L "explanation", JString explanation);
           (L "guidelines", JString guidelines);
           (L "examples", JString examples)].

(** ** api-client.ts: [checkApiHealth]; config.ts: [initializeExtension] *)

Module Config.

(** What the editor supplies: the two settings of the [axessAI] section,
    the answer to the input box (absent when it is dismissed), and the
    health endpoint, which answers with [data?.status] when it answers. *)
Record Host :=
  { apiEndPoint : option str;
    openApiKey : option str;
    input : option str;
    get_health : str -> Thrown + option str }.

(** What the user is shown or asked, and the setting that is saved. *)
Inductive Notice : Type :=
| Warning (text : str)
| Information (text : str)
| Error (text : str)
| InputBox
| SaveSetting (key value : str).

(** The global state with the [apiHealth] key. *)
Record Global := { state : State; apiHealth : option bool }.

Definition update_apiUrl (g : Global) (v : str) : Global :=
  {| state := {| scanResults := scanResults (state g);
                 detailedScanResults := detailedScanResults (state g);
                 apiUrl := v; apiKey := apiKey (state g);
                 previousCommands := previousCommands (state g) |};
     apiHealth := apiHealth g |}.

Definition update_apiKey (g : Global) (v : str) : Global :=
  {| state := {| scanResults := scanResults (state g);
                 detailedScanResults := detailedScanResults (state g);
                 apiUrl := apiUrl (state g); apiKey := v;
                 previousCommands := previousCommands (state g) |};
     apiHealth := apiHealth g |}.

Definition update_apiHealth (g : Global) (v : bool) : Global :=
  {| state := state g; apiHealth := Some v |}.

Definition checkApiHealth (host : Host) (apiUrl : str) (g : Global)
  : Global * bool :=
  match get_health host (apiUrl ++ L "/health") with
  | inr status =>
      let isHealthy := opt_eqb str_eqb status (L "healthy") in
      (update_apiHealth g isHealthy, isHealthy)
  | inl _ => (update_apiHealth g false, false)
  end.

Definition default_url : str := L "http://localhost:8000".

Definition initializeExtension (host : Host) (g : Global)
  : Global * list Notice :=
  let apiUrl := or_str (apiEndPoint host) default_url in
  let apiKey := or_str (openApiKey host) [] in
  let '(apiKey, g, asked) :=
    match apiKey with
    | [] =>
        let warned :=
          [Warning (L "⚠️ No API key found for Axess AI. Some features may not work.");
           InputBox] in
        match input host with
        | Some (c :: r) =>
            (c :: r, update_apiKey g (c :: r),
             warned ++ [SaveSetting (L "openApiKey") (c :: r);
                        Information (L "API key saved successfully.")])
        | _ =>
            (apiKey, g,
             warned
             ++ [Error (L "No API key entered. Some features may not work.")])
        end
    | _ :: _ => (apiKey, g, [])
    end in
  let g := update_apiUrl g apiUrl in
  let g := update_apiKey g apiKey in
  let (g, isHealthy) := checkApiHealth host apiUrl g in
  (g,
   asked
   ++ [if isHealthy then Information (L "Axess AI is active!")
       else Error (L "Axess AI could not connect to the accessibility API.")]).

End Config.

(** A host with no key configured whose user dismisses the input box and
    whose API is up. *)
Definition host_without_key : Config.Host :=
  {| Config.apiEndPoint := Some [];
     Config.openApiKey := None;
     Config.input := None;
     Config.get_health := fun _ => inr (Some (L "healthy")) |}.

Definition fresh : Config.Global :=
  {| Config.state := initial_state [] []; Config.apiHealth := None |}.

(** * Properties *)

(** ** Lists *)

Lemma forEach_push {A B} (f : A -> B) (arr : list A) (acc : list B) :
  forEach arr (fun acc x => push acc (f x)) acc = acc ++ map f arr.
Proof.
  unfold forEach, push. revert acc.
  induction arr as [|x arr IH]; intro acc; simpl.
  - now rewrite app_nil_r.
  - rewrite IH, <- app_assoc. reflexivity.
Qed.




(** ** formatters.ts: the two traversals of a scan response *)

Lemma format_entries (entries : list (str * IssuesValue)) (acc : list str) :
  forEach entries
    (fun results '(severity, issues) =>
       match issues with
       | IssueArray issues =>
           if 0 <? length issues
           then forEach issues
                  (fun results issue =>
                     push results (display_line severity (Issue.help issue)))
                  results
           else results
       | NotAnArray => results
       end) acc
  = acc ++ map line_of
             (flat_map (fun e => map (pair (fst e)) (issues_of (snd e)))
                entries).
Proof.
  unfold forEach at 1. revert acc.
  induction entries as [|[severity value] entries IH]; intro acc; simpl.
  - now rewrite app_nil_r.
  - rewrite IH, map_app, app_assoc. f_equal.
    destruct value as [issues|]; simpl.
    + destruct issues as [|i issues]; simpl.
      * now rewrite app_nil_r.
      * change (forEach (i :: issues)
                  (fun results issue =>
                     push results (display_line severity (Issue.help issue)))
                  acc
                = acc ++ map line_of (map (pair severity) (i :: issues))).
        rewrite forEach_push, map_map. reflexivity.
    + now rewrite app_nil_r.
Qed.

Lemma extract_entries (entries : list (str * IssuesValue))
  (acc : list DetailedViolation.t) :
  forEach entries
    (fun violations '(severity, issues) =>
       match issues with
       | IssueArray issues =>
           if 0 <? length issues
           then forEach issues
                  (fun violations issue => push violations (detail issue))
                  violations
           else violations
       | NotAnArray => violations
       end) acc
  = acc ++ map (fun p => detail (snd p))
             (flat_map (fun e => map (pair (fst e)) (issues_of (snd e)))
                entries).
Proof.
  unfold forEach at 1. revert acc.
  induction entries as [|[severity value] entries IH]; intro acc; simpl.
  - now rewrite app_nil_r.
  - rewrite IH, map_app, app_assoc. f_equal.
    destruct value as [issues|]; simpl.
    + destruct issues as [|i issues]; simpl.
      * now rewrite app_nil_r.
      * change (forEach (i :: issues)
                  (fun violations issue => push violations (detail issue)) acc
                = acc ++ map (fun p => detail (snd p))
                           (map (pair severity) (i :: issues))).
        rewrite forEach_push, map_map. reflexivity.
    + now rewrite app_nil_r.
Qed.

Lemma formatScanResults_lines (r : ScanResponse) :
  formatScanResults r
  = (L "📊 " ++ scan_result r) :: map line_of (tagged_issues r).
Proof.
  unfold formatScanResults, tagged_issues, entries_of.
  destruct (raw_violations r) as [entries|].
  - rewrite format_entries. reflexivity.
  - reflexivity.
Qed.

Lemma extract_violations (r : ScanResponse) :
  violations (extractDetailedScanResults r) = violations_in_response_order r.
Proof.
  unfold extractDetailedScanResults, violations_in_response_order,
    tagged_issues, entries_of. simpl.
  destruct (raw_violations r) as [entries|].
  - rewrite extract_entries. reflexivity.
  - reflexivity.
Qed.

Lemma formatScanResults_length (r : ScanResponse) :
  length (formatScanResults r)
  = S (length (violations (extractDetailedScanResults r))).
Proof.
  rewrite formatScanResults_lines, extract_violations.
  unfold violations_in_response_order. simpl. now rewrite !length_map.
Qed.




(** ** extension.ts: the stored scan record and the fix command *)

Lemma V1_fix (w : World) (n : str) (st : State) :
  V1.handler w (fix_request n) st
  = if length (scanResults st) =? 0 then (st, guidance V1.msg_no_scan)
    else (st, fix_at icons V1.msg_invalid_issue (fix_query 24) w
                (parseInt n) st).
Proof. reflexivity. Qed.

(** C3 as stated fails: a response that lists [minor] before [critical]
    is stored in that order, not by severity. *)
Lemma C3_counterexample :
  violations (extractDetailedScanResults response_minor_first)
  <> violations_by_severity response_minor_first.
Proof. vm_compute. discriminate. Qed.

(** C3 (amended). The stored violations follow the order in which the
    response lists its severity groups, and the order of the API within each
    group.  For a response that lists [critical: [v1]] and then
    [minor: [v2]] the stored order is [v1, v2]; with that record stored,
    [/fix 1] asks about [v1] and [/fix 2] about [v2]. *)
Theorem C3_violations_in_response_order :
  (forall r,
      violations (extractDetailedScanResults r)
      = violations_in_response_order r)
  /\ (forall u s v1 v2 w st,
        let r := {| url := u; scan_result := s;
                    raw_violations :=
                      Some [(L "critical", IssueArray [v1]);
                            (L "minor", IssueArray [v2])] |} in
        violations (extractDetailedScanResults r) = [detail v1; detail v2]
        /\ violations_by_severity r = [detail v1; detail v2]
        /\ V1.handler w (fix_request (L "1")) (stored r st)
           = (stored r st,
              ask w (L "fix") (fix_query 24 (detail v1)) (fix_failed icons)
                (stored r st))
        /\ V1.handler w (fix_request (L "2")) (stored r st)
           = (stored r st,
              ask w (L "fix") (fix_query 24 (detail v2)) (fix_failed icons)
                (stored r st))).
Proof.
  split; [exact extract_violations|].
  intros u s v1 v2 w st r.
  repeat split.
Qed.

(** ** extension.ts: the command history *)


(** Case analysis along the branches of a [switch]. *)
Ltac branches :=
  repeat match goal with
         | |- context [if ?b then _ else _] => destruct b
         | |- context [match ?x with [] => _ | _ :: _ => _ end] => destruct x
         end.











(** ** extension.ts: scans *)

Lemma stored_stored rA rB st : stored rB (stored rA st) = stored rB st.
Proof. reflexivity. Qed.

Lemma scan_and_store_success ic hint w target st r :
  snd (performAccessibilityScan w (apiUrl st) (apiKey st) target) = inr r ->
  fst (scan_and_store ic hint w target st) = stored r st.
Proof.
  unfold scan_and_store.
  destruct (performAccessibilityScan w (apiUrl st) (apiKey st) target)
    as [net [error|r']]; simpl; intro H; [discriminate|].
  injection H as ->. reflexivity.
Qed.

Lemma scan_and_store_failure ic hint w target st error :
  snd (performAccessibilityScan w (apiUrl st) (apiKey st) target) = inl error ->
  fst (scan_and_store ic hint w target st) = st
  /\ last (snd (scan_and_store ic hint w target st)) (Markdown [])
     = Markdown (scan_failed_text ic error).
Proof.
  unfold scan_and_store.
  destruct (performAccessibilityScan w (apiUrl st) (apiKey st) target)
    as [net [error'|r]]; simpl; intro H; [|discriminate].
  injection H as ->. split; [reflexivity|].
  destruct net as [|e net]; [reflexivity|].
  change (e :: net ++ [Markdown (scan_failed_text ic error)])
    with ((e :: net) ++ [Markdown (scan_failed_text ic error)]).
  apply last_last.
Qed.

Lemma V1_scan w target st :
  target <> [] -> URL_parses w target = true ->
  V1.handler w (scan_request target) st
  = scan_and_store icons V1.hint w target st.
Proof.
  intros Ht Hu. unfold V1.handler, scan_request. cbn [request_command prompt].
  change (opt_eqb str_eqb (Some (L "scan")) (L "scan")) with true.
  cbv iota. destruct target as [|c target]; [contradiction|].
  now rewrite Hu.
Qed.

Lemma V1_scan_state w target st :
  fst (V1.handler w (scan_request target) st) = st
  \/ exists r, fst (V1.handler w (scan_request target) st) = stored r st
               /\ scan_succeeds w target st r.
Proof.
  destruct target as [|c target]; [left; reflexivity|].
  destruct (URL_parses w (c :: target)) eqn:Hu.
  - rewrite V1_scan by (assumption || discriminate).
    destruct (snd (performAccessibilityScan w (apiUrl st) (apiKey st)
                     (c :: target))) as [error|r] eqn:E.
    + left. now apply scan_and_store_failure with (error := error).
    + right. exists r. split.
      * now apply scan_and_store_success.
      * repeat split; (assumption || discriminate).
  - left. unfold V1.handler, scan_request. cbn [request_command prompt].
    change (opt_eqb str_eqb (Some (L "scan")) (L "scan")) with true.
    cbv iota. now rewrite Hu.
Qed.

Lemma fix_at_out_of_range ic invalid query w k st :
  (k < 1 \/ Z.of_nat (length (violations (detailedScanResults st))) < k)%Z ->
  fix_at ic invalid query w (Some k) st = guidance invalid
  \/ fix_at ic invalid query w (Some k) st = guidance (msg_no_detail ic).
Proof.
  intro H. unfold fix_at.
  destruct ((k <? 0)%Z || (Z.of_nat (length (scanResults st)) <=? k)%Z);
    [now left|right].
  replace (at_index (violations (detailedScanResults st)) (k - 1)) with
    (@None DetailedViolation.t); [reflexivity|].
  unfold at_index. destruct (k - 1 <? 0)%Z eqn:E; [reflexivity|].
  symmetry. apply nth_error_None. apply Z.ltb_ge in E. lia.
Qed.

(** C7. A scan that succeeds replaces the stored record as a whole: after
    scan A and then scan B the stored lines and violations are those of B's
    response alone, whatever A returned, so a following [/fix k] is answered
    from B's violations only; an index past B's violations is refused even
    where it was a valid index for A. *)
Theorem C7_scan_replaces_record wA wB tA tB rA rB st :
  let stA := fst (V1.handler wA (scan_request tA) st) in
  let stB := fst (V1.handler wB (scan_request tB) stA) in
  scan_succeeds wA tA st rA ->
  scan_succeeds wB tB stA rB ->
  stB = stored rB st
  /\ scanResults stB = formatScanResults rB
  /\ detailedScanResults stB = extractDetailedScanResults rB
  /\ (forall w n,
        V1.handler w (fix_request n) stB
        = V1.handler w (fix_request n)
            (fst (V1.handler wB (scan_request tB) st)))
  /\ (forall w n k,
        parseInt n = Some k ->
        (Z.of_nat (length (violations (extractDetailedScanResults rB))) < k)%Z ->
        exists text, V1.handler w (fix_request n) stB = (stB, guidance text)).
Proof.
  intros stA stB (HtA & HuA & HA) (HtB & HuB & HB).
  assert (EA : stA = stored rA st).
  { unfold stA. rewrite V1_scan by assumption.
    now apply scan_and_store_success. }
  assert (EB : stB = stored rB st).
  { unfold stB. rewrite V1_scan by assumption.
    rewrite (scan_and_store_success _ _ _ _ _ rB) by assumption.
    rewrite EA. apply stored_stored. }
  assert (EB' : fst (V1.handler wB (scan_request tB) st) = stored rB st).
  { rewrite V1_scan by assumption.
    apply scan_and_store_success. rewrite EA in HB. exact HB. }
  split; [exact EB|]. rewrite EB, EB'.
  repeat split.
  intros w n k Hn Hk. rewrite V1_fix.
  destruct (length (scanResults (stored rB st)) =? 0); [eexists; reflexivity|].
  rewrite Hn.
  destruct (fix_at_out_of_range icons V1.msg_invalid_issue (fix_query 24) w k
              (stored rB st)) as [E|E];
    [right; exact Hk| |]; rewrite E; eexists; reflexivity.
Qed.

Lemma C7_witness :
  let wA := world_answering response_minor_first in
  let wB := world_answering response_one in
  let stA := fst (V1.handler wA (scan_request example_com) configured) in
  scan_succeeds wA example_com configured response_minor_first
  /\ scan_succeeds wB example_org stA response_one
  /\ fst (V1.handler wB (scan_request example_org) stA)
     = stored response_one configured.
Proof.
  intros wA wB stA.
  assert (HA : scan_succeeds wA example_com configured response_minor_first)
    by (repeat split; discriminate).
  assert (HB : scan_succeeds wB example_org stA response_one)
    by (repeat split; discriminate).
  split; [exact HA|]. split; [exact HB|].
  exact (proj1 (C7_scan_replaces_record wA wB example_com example_org
                  response_minor_first response_one configured HA HB)).
Defined.




(** ** api-client.ts: the body of a query *)

(** C10. A query that begins with an opening brace is parsed as JSON and the
    parsed value is the body of the request; when the parse fails the call
    fails with an "API request failed" error and nothing is sent.  Any other
    query is sent wrapped as [{query: <the string>}]. *)
Theorem C10_query_body w apiUrl command apiKey :
  let endpoint := apiUrl ++ L "/api/accessibility/" ++ command in
  (forall rest j,
      JSON_parse w ("{"%char :: rest) = inr j ->
      fst (queryAccessibilityApi w apiUrl command apiKey ("{"%char :: rest))
      = [Post endpoint j apiKey])
  /\ (forall rest error,
        JSON_parse w ("{"%char :: rest) = inl error ->
        queryAccessibilityApi w apiUrl command apiKey ("{"%char :: rest)
        = ([], inl (OtherError (L "API request failed: "
                                ++ errorMessage error))))
  /\ (forall query,
        startsWith query (L "{") = false ->
        fst (queryAccessibilityApi w apiUrl command apiKey query)
        = [Post endpoint (JObject [(L "query", JString query)]) apiKey]).
Proof.
  intro endpoint. unfold queryAccessibilityApi. fold endpoint.
  repeat split.
  - intros rest j H.
    change (startsWith ("{"%char :: rest) (L "{")) with true. cbv iota.
    rewrite H. now destruct (post_query w endpoint j apiKey).
  - intros rest error H.
    change (startsWith ("{"%char :: rest) (L "{")) with true. cbv iota.
    now rewrite H.
  - intros query H. rewrite H.
    now destruct (post_query w endpoint (JObject [(L "query", JString query)])
                    apiKey).
Qed.

Lemma C10_witness :
  let w := world_answering response_one in
  fst (queryAccessibilityApi w (L "http://localhost:8000") (L "explain")
         (L "sk-test") (L "{}"))
  = [Post (L "http://localhost:8000/api/accessibility/explain") (JObject [])
       (L "sk-test")]
  /\ queryAccessibilityApi w (L "http://localhost:8000") (L "explain")
       (L "sk-test") (L "{alt text")
     = ([], inl (OtherError (L "API request failed: Unexpected token")))
  /\ fst (queryAccessibilityApi w (L "http://localhost:8000") (L "explain")
            (L "sk-test") (L "alt text"))
     = [Post (L "http://localhost:8000/api/accessibility/explain")
          (JObject [(L "query", JString (L "alt text"))]) (L "sk-test")].
Proof.
  intro w.
  pose proof (C10_query_body w (L "http://localhost:8000") (L "explain")
                (L "sk-test")) as (H1 & H2 & H3).
  split; [|split].
  - exact (H1 [ "}"%char ] (JObject []) eq_refl).
  - exact (H2 (L "alt text") (OtherError (L "Unexpected token")) eq_refl).
  - exact (H3 (L "alt text") eq_refl).
Defined.

(** ** extension.ts: the fix command *)

(** C4. A fix whose issue number lies outside [1, number of stored
    violations] (zero, negative, or past the end) ends in guidance: one
    warning on the chat stream, no request to the API, the stored state as it
    was.  The handler is a total function, so no input makes it fail. *)
Theorem C4_fix_out_of_range w n k st :
  parseInt n = Some k ->
  (k < 1 \/ Z.of_nat (length (violations (detailedScanResults st))) < k)%Z ->
  exists text,
    V1.handler w (fix_request n) st = (st, guidance text)
    /\ In text [V1.msg_no_scan; V1.msg_invalid_issue; msg_no_detail icons]
    /\ existsb is_post (snd (V1.handler w (fix_request n) st)) = false.
Proof.
  intros Hn Hk. rewrite V1_fix.
  destruct (length (scanResults st) =? 0).
  - exists V1.msg_no_scan. repeat split. now left.
  - rewrite Hn.
    destruct (fix_at_out_of_range icons V1.msg_invalid_issue (fix_query 24) w k
                st Hk) as [E|E]; rewrite E.
    + exists V1.msg_invalid_issue. repeat split. right. now left.
    + exists (msg_no_detail icons). repeat split. right. right. now left.
Qed.

Lemma C4_witness :
  exists text,
    V1.handler (world_answering response_one) (fix_request (L "0"))
      (stored response_one configured)
    = (stored response_one configured, guidance text)
    /\ In text [V1.msg_no_scan; V1.msg_invalid_issue; msg_no_detail icons]
    /\ existsb is_post
         (snd (V1.handler (world_answering response_one) (fix_request (L "0"))
                 (stored response_one configured))) = false.
Proof.
  apply (C4_fix_out_of_range (world_answering response_one) (L "0") 0%Z
           (stored response_one configured)).
  - reflexivity.
  - left. reflexivity.
Defined.

(** [parseInt] reads a leading integer and ignores what follows it. *)
Example fix_leading_integer w :
  parseInt (L "1abc") = Some 1%Z
  /\ V1.handler w (fix_request (L "1abc")) (stored response_one configured)
     = (stored response_one configured,
        ask w (L "fix") (fix_query 24 (detail issue_alt)) (fix_failed icons)
          (stored response_one configured)).
Proof. split; reflexivity. Qed.




(** ** The matcher *)
















(** ** The three patterns of the local intent detection *)













(** ** extension.ts, second version: the intent of an utterance *)

(** The scenarios the specification lists. *)
Example scenario_url :
  detectIntent (L "https://example.com")
  = {| command := L "scan"; content := L "https://example.com" |}.
Proof. reflexivity. Qed.

Example scenario_fix_issue_3 :
  detectIntent (L "fix issue 3")
  = {| command := L "fix"; content := L "fix issue 3" |}
  /\ V2.fixIndex_of (L "fix issue 3") = Some 3%Z.
Proof. split; reflexivity. Qed.

Example scenario_fix_without_number :
  detectIntent (L "fix") = {| command := L "fix"; content := L "fix" |}
  /\ V2.fixIndex_of (L "fix") = Some (-1)%Z.
Proof. split; reflexivity. Qed.

Example scenario_question :
  detectIntent (L "how do I label images")
  = {| command := L "explain"; content := L "how do i label images" |}.
Proof. reflexivity. Qed.





























(** * Further properties *)

(** ** Normalisation of an utterance *)

Lemma lower_char_idem c : lower_char (lower_char c) = lower_char c.
Proof. destruct c as [[] [] [] [] [] [] [] []]; reflexivity. Qed.

Lemma lower_char_space c : is_space (lower_char c) = is_space c.
Proof. destruct c as [[] [] [] [] [] [] [] []]; reflexivity. Qed.

Lemma toLowerCase_idem s : toLowerCase (toLowerCase s) = toLowerCase s.
Proof.
  unfold toLowerCase. rewrite map_map.
  apply map_ext. exact lower_char_idem.
Qed.

Lemma trimStart_lower s :
  trimStart (toLowerCase s) = toLowerCase (trimStart s).
Proof.
  induction s as [|c s IH]; [reflexivity|]. simpl.
  rewrite lower_char_space. now destruct (is_space c).
Qed.

Lemma trimEnd_lower s : trimEnd (toLowerCase s) = toLowerCase (trimEnd s).
Proof.
  unfold trimEnd, toLowerCase.
  rewrite <- map_rev. fold (toLowerCase (rev s)).
  rewrite trimStart_lower. unfold toLowerCase. now rewrite map_rev.
Qed.

Lemma trim_lower s : trim (toLowerCase s) = toLowerCase (trim s).
Proof. unfold trim. now rewrite trimStart_lower, trimEnd_lower. Qed.

Lemma trimStart_app a b :
  trimStart (a ++ b)
  = if forallb is_space a then trimStart b else trimStart a ++ b.
Proof.
  induction a as [|c a IH]; [reflexivity|]. simpl.
  now destruct (is_space c).
Qed.

Lemma trimStart_nil_iff s : trimStart s = [] <-> forallb is_space s = true.
Proof.
  induction s as [|c s IH]; [easy|]. simpl.
  destruct (is_space c); [exact IH|easy].
Qed.

Lemma trimEnd_nil_iff s : trimEnd s = [] <-> forallb is_space s = true.
Proof.
  unfold trimEnd. rewrite forallb_forall.
  split.
  - intros H c Hc.
    assert (E : trimStart (rev s) = []).
    { rewrite <- (rev_involutive (trimStart (rev s))), H. reflexivity. }
    apply trimStart_nil_iff in E.
    rewrite forallb_forall in E. apply E. now apply in_rev in Hc.
  - intro H.
    assert (E : trimStart (rev s) = []).
    { apply trimStart_nil_iff, forallb_forall. intros c Hc.
      apply H. now apply in_rev. }
    now rewrite E.
Qed.

(** [trimEnd] read from the front. *)
Lemma trimEnd_cons c s :
  trimEnd (c :: s)
  = match trimEnd s with
    | [] => if is_space c then [] else [c]
    | _ :: _ => c :: trimEnd s
    end.
Proof.
  destruct (forallb is_space s) eqn:E.
  - pose proof (proj2 (trimEnd_nil_iff s) E) as N. rewrite N.
    unfold trimEnd. simpl rev. rewrite trimStart_app.
    assert (Er : forallb is_space (rev s) = true).
    { apply forallb_forall. intros x Hx. rewrite forallb_forall in E.
      apply E. now apply in_rev. }
    rewrite Er. simpl. now destruct (is_space c).
  - destruct (trimEnd s) as [|x t] eqn:N.
    + apply trimEnd_nil_iff in N. congruence.
    + rewrite <- N. unfold trimEnd. simpl rev. rewrite trimStart_app.
      assert (Er : forallb is_space (rev s) = false).
      { destruct (forallb is_space (rev s)) eqn:R; [|reflexivity].
        rewrite <- E. symmetry. apply forallb_forall. intros y Hy.
        rewrite forallb_forall in R. apply R. now apply -> in_rev. }
      rewrite Er, rev_app_distr. reflexivity.
Qed.

Lemma trimStart_idem s : trimStart (trimStart s) = trimStart s.
Proof.
  induction s as [|c s IH]; [reflexivity|]. simpl.
  destruct (is_space c) eqn:E; [exact IH|]. simpl. now rewrite E.
Qed.

Lemma trimEnd_idem s : trimEnd (trimEnd s) = trimEnd s.
Proof.
  unfold trimEnd. now rewrite rev_involutive, trimStart_idem.
Qed.

(** Trimming the end keeps a text that starts with no white space so. *)
Lemma trimStart_trimEnd s :
  trimStart (trimEnd (trimStart s)) = trimEnd (trimStart s).
Proof.
  destruct (trimStart s) as [|c t] eqn:E; [reflexivity|].
  assert (Hc : is_space c = false).
  { destruct s as [|x s]; [discriminate|].
    revert E. generalize (x :: s). intro l.
    induction l as [|y l IH]; [discriminate|]. simpl.
    destruct (is_space y) eqn:Y; [exact IH|]. now intros [= <- _]. }
  rewrite trimEnd_cons.
  destruct (trimEnd t); rewrite ?Hc; simpl; now rewrite ?Hc.
Qed.

Lemma trim_idem s : trim (trim s) = trim s.
Proof. unfold trim. now rewrite trimStart_trimEnd, trimEnd_idem. Qed.

Lemma normalized_trim q : normalized (trim q) = normalized q.
Proof. unfold normalized. now rewrite <- trim_lower, trim_idem. Qed.

Lemma normalized_lower q : normalized (toLowerCase q) = normalized q.
Proof. unfold normalized. now rewrite toLowerCase_idem. Qed.

Lemma normalized_idem q : normalized (normalized q) = normalized q.
Proof.
  unfold normalized at 2. rewrite trim_lower.
  now rewrite normalized_lower, normalized_trim.
Qed.

Lemma detectIntent_normalized q q' :
  normalized q = normalized q' -> detectIntent q = detectIntent q'.
Proof. intro H. unfold detectIntent. fold (normalized q) (normalized q'). now rewrite H. Qed.

(** X1. The intent of an utterance does not depend on its letter case or on
    white space around it: trimming, lowercasing or normalising the utterance
    first gives the same intent, and the handler of the second version
    answers two prompts with the same normal form alike. *)
Theorem X1_intent_of_normal_form q :
  detectIntent (trim q) = detectIntent q
  /\ detectIntent (toLowerCase q) = detectIntent q
  /\ detectIntent (normalized q) = detectIntent q
  /\ (forall w r1 r2 st,
        normalized (prompt r1) = normalized (prompt r2) ->
        V2.handler w r1 st = V2.handler w r2 st).
Proof.
  repeat split.
  - apply detectIntent_normalized, normalized_trim.
  - apply detectIntent_normalized, normalized_lower.
  - apply detectIntent_normalized, normalized_idem.
  - intros w r1 r2 st H. unfold V2.handler.
    assert (E : detectIntent (trim (prompt r1)) = detectIntent (trim (prompt r2))).
    { apply detectIntent_normalized. now rewrite !normalized_trim. }
    now rewrite E.
Qed.

Lemma X1_witness :
  let w := world_answering response_one in
  V2.handler w {| request_command := None; prompt := L "  FIX Issue 1 " |}
    (stored response_one configured)
  = V2.handler w {| request_command := None; prompt := L "fix issue 1" |}
      (stored response_one configured).
Proof.
  intro w.
  exact (proj2 (proj2 (proj2 (X1_intent_of_normal_form [])))
           w {| request_command := None; prompt := L "  FIX Issue 1 " |}
           {| request_command := None; prompt := L "fix issue 1" |}
           (stored response_one configured) eq_refl).
Defined.

(** ** The fix pattern, both ways *)












(** ** Queries as the handlers send them *)

Lemma ask_wrapped w command query failed st :
  startsWith query (L "{") = false ->
  exists reply,
    ask w command query failed st
    = [wrapped_post command query st; Markdown reply].
Proof.
  intro H. unfold ask, queryAccessibilityApi, wrapped_post. rewrite H.
  destruct (post_query w (apiUrl st ++ L "/api/accessibility/" ++ command)
              (JObject [(L "query", JString query)]) (apiKey st))
    as [error|data]; [eexists; reflexivity|].
  destruct (is_object data); eexists; reflexivity.
Qed.

Lemma blank_forallb s : blank s <-> forallb is_space s = true.
Proof. unfold blank, all. now rewrite forallb_forall, Forall_forall. Qed.

Lemma trim_blank s : blank s -> trim s = [].
Proof.
  intro H. apply blank_forallb, trimStart_nil_iff in H.
  unfold trim. now rewrite H.
Qed.








(** ** The stored scan record along a conversation *)

Lemma recorded_initial u k : recorded (initial_state u k).
Proof. now left. Qed.

Lemma recorded_stored r st : recorded (stored r st).
Proof. right. now exists r. Qed.

Lemma recorded_remember c st : recorded st -> recorded (remember c st).
Proof. exact (fun H => H). Qed.

Lemma scan_and_store_state ic hint w target st :
  fst (scan_and_store ic hint w target st) = st
  \/ exists r, fst (scan_and_store ic hint w target st) = stored r st.
Proof.
  unfold scan_and_store.
  destruct (performAccessibilityScan w (apiUrl st) (apiKey st) target)
    as [net [error|r]]; [now left|right; now exists r].
Qed.

Lemma V1_state w request st :
  fst (V1.handler w request st) = st
  \/ exists r, fst (V1.handler w request st) = stored r st.
Proof.
  unfold V1.handler. branches; try (now left); apply scan_and_store_state.
Qed.

Lemma V2_state w request st :
  fst (V2.handler w request st) = st
  \/ exists r, fst (V2.handler w request st) = stored r st.
Proof.
  unfold V2.handler. branches; try (now left); apply scan_and_store_state.
Qed.

Lemma V3_dispatch_state w ia st :
  fst (V3.dispatch w ia st) = st
  \/ exists r, fst (V3.dispatch w ia st) = stored r st.
Proof.
  unfold V3.dispatch, fix_case, explain_case.
  branches; try (now left); apply scan_and_store_state.
Qed.

Lemma V4_dispatch_state w ia st :
  fst (V4.dispatch w ia st) = st
  \/ exists r, fst (V4.dispatch w ia st) = stored r st.
Proof.
  unfold V4.dispatch, fix_case, explain_case.
  branches; try (now left); apply scan_and_store_state.
Qed.

Lemma V3_state w request st :
  fst (V3.handler w request st) = st
  \/ exists c, fst (V3.handler w request st) = remember c st
               \/ exists r, fst (V3.handler w request st)
                            = stored r (remember c st).
Proof.
  unfold V3.handler.
  destruct (analyzeIntent w (apiUrl st) (apiKey st) (trim (prompt request))
              (scanResults st) (slice_last 5 (previousCommands st)))
    as [net [error|ia]]; [now left|right].
  exists (IntentAnalysisResult.command ia).
  pose proof (V3_dispatch_state w ia
                (remember (IntentAnalysisResult.command ia) st)) as H.
  destruct (V3.dispatch w ia (remember (IntentAnalysisResult.command ia) st))
    as [st' out]. exact H.
Qed.

Lemma V4_state w request st :
  fst (V4.handler w request st) = st
  \/ exists c, fst (V4.handler w request st) = remember c st
               \/ exists r, fst (V4.handler w request st)
                            = stored r (remember c st).
Proof.
  unfold V4.handler.
  destruct (V4.resolve w request st) as [net [error|ia]]; [now left|right].
  exists (IntentAnalysisResult.command ia).
  pose proof (V4_dispatch_state w ia
                (remember (IntentAnalysisResult.command ia) st)) as H.
  destruct (V4.dispatch w ia (remember (IntentAnalysisResult.command ia) st))
    as [st' out]. exact H.
Qed.

Lemma run_invariant (P : State -> Prop) handler :
  (forall w request st, P st -> P (fst (handler w request st))) ->
  forall turns st, P st -> P (run handler turns st).
Proof.
  intros Hstep turns. unfold run.
  induction turns as [|[w request] turns IH]; intros st H; [exact H|].
  simpl. apply IH. now apply Hstep.
Qed.

Lemma recorded_lengths st :
  recorded st ->
  scanResults st = []
  \/ length (scanResults st)
     = S (length (violations (detailedScanResults st))).
Proof.
  intros [[H _]|(r & H1 & H2)]; [now left|right].
  rewrite H1, H2. apply formatScanResults_length.
Qed.

(** X4. In every version of the handler the two stored keys stay in step:
    along any conversation that starts from the initial state (or from any
    state where they are in step) they are both empty or both derived from
    one and the same scan response, so there is always one display line more
    than there are stored violations. *)
Theorem X4_record_stays_in_step handler turns st :
  In handler [V1.handler; V2.handler; V3.handler; V4.handler] ->
  recorded st ->
  let st' := run handler turns st in
  recorded st'
  /\ (scanResults st' = []
      \/ length (scanResults st')
         = S (length (violations (detailedScanResults st')))).
Proof.
  intros Hh H st'.
  assert (R : recorded st').
  { apply run_invariant; [|exact H]. clear H st'.
    intros w request s H.
    destruct Hh as [<-|[<-|[<-|[<-|[]]]]].
    - destruct (V1_state w request s) as [->|(r & ->)];
        [exact H|apply recorded_stored].
    - destruct (V2_state w request s) as [->|(r & ->)];
        [exact H|apply recorded_stored].
    - destruct (V3_state w request s) as [->|(c & [->|(r & ->)])];
        [exact H|exact H|apply recorded_stored].
    - destruct (V4_state w request s) as [->|(c & [->|(r & ->)])];
        [exact H|exact H|apply recorded_stored]. }
  split; [exact R|now apply recorded_lengths].
Qed.

Lemma X4_witness :
  recorded (run V4.handler fifteen_turns configured)
  /\ length (scanResults (run V4.handler fifteen_turns configured)) = 2.
Proof.
  split; [|reflexivity].
  exact (proj1 (X4_record_stays_in_step V4.handler fifteen_turns configured
                  (or_intror (or_intror (or_intror (or_introl eq_refl))))
                  (recorded_initial _ _))).
Defined.

(** ** The fix command within range *)

Lemma fix_query_plain indent v : startsWith (fix_query indent v) (L "{") = false.
Proof. reflexivity. Qed.

Lemma recorded_length_pos st :
  recorded st ->
  0 < length (violations (detailedScanResults st)) ->
  length (scanResults st) = S (length (violations (detailedScanResults st))).
Proof.
  intros [[_ V]|(r & H1 & H2)] H.
  - rewrite V in H. simpl in H. lia.
  - rewrite H1, H2. apply formatScanResults_length.
Qed.

Lemma fix_at_in_range ic invalid query w k st :
  recorded st ->
  (1 <= k <= Z.of_nat (length (violations (detailedScanResults st))))%Z ->
  exists v,
    nth_error (violations (detailedScanResults st)) (Z.to_nat (k - 1)) = Some v
    /\ fix_at ic invalid query w (Some k) st
       = ask w (L "fix") (query v) (fix_failed ic) st.
Proof.
  intros R Hk.
  destruct (nth_error (violations (detailedScanResults st)) (Z.to_nat (k - 1)))
    as [v|] eqn:E.
  - exists v. split; [reflexivity|]. unfold fix_at.
    pose proof (recorded_length_pos st R ltac:(lia)) as N.
    replace ((k <? 0)%Z || (Z.of_nat (length (scanResults st)) <=? k)%Z)
      with false.
    + unfold at_index.
      replace (k - 1 <? 0)%Z with false by (symmetry; apply Z.ltb_ge; lia).
      now rewrite E.
    + symmetry. apply orb_false_iff. split.
      * apply Z.ltb_ge. lia.
      * apply Z.leb_gt. lia.
  - apply nth_error_None in E. lia.
Qed.

(** X5. With the stored keys in step, a fix whose number [k] lies within
    [1, number of stored violations] reaches the API: one request to the fix
    endpoint, whose query is the fix text built from the help and the HTML of
    [violations[k-1]], then one message; the state is as it was.  This holds
    for the explicit command of the first version and for a fix intent that
    the API resolved with [issue_number = k]. *)
Theorem X5_fix_in_range w k st :
  recorded st ->
  (1 <= k <= Z.of_nat (length (violations (detailedScanResults st))))%Z ->
  exists v,
    nth_error (violations (detailedScanResults st)) (Z.to_nat (k - 1)) = Some v
    /\ (forall n,
          parseInt n = Some k ->
          exists reply,
            V1.handler w (fix_request n) st
            = (st, [wrapped_post (L "fix") (fix_query 24 v) st;
                    Markdown reply]))
    /\ (forall ia md,
          IntentAnalysisResult.metadata ia = Some md ->
          Metadata.issue_number md = Some k ->
          exists reply,
            fix_case w ia st
            = (st, [wrapped_post (L "fix") (fix_query 28 v) st;
                    Markdown reply])).
Proof.
  intros R Hk.
  assert (N : (length (scanResults st) =? 0) = false).
  { rewrite (recorded_length_pos st R) by lia. reflexivity. }
  destruct (fix_at_in_range icons V1.msg_invalid_issue (fix_query 24) w k st
              R Hk) as (v & Ev & E1).
  destruct (fix_at_in_range icons_reencoded msg_undetermined (fix_query 28) w
              k st R Hk) as (v' & Ev' & E3).
  assert (v' = v) by congruence. subst v'.
  exists v. split; [exact Ev|]. split.
  - intros n Hn.
    destruct (ask_wrapped w (L "fix") (fix_query 24 v) (fix_failed icons) st
                (fix_query_plain 24 v)) as (reply & A).
    exists reply. now rewrite V1_fix, N, Hn, E1, A.
  - intros ia md Hmd Hi.
    destruct (ask_wrapped w (L "fix") (fix_query 28 v)
                (fix_failed icons_reencoded) st (fix_query_plain 28 v))
      as (reply & A).
    exists reply. unfold fix_case, issue_number_or. rewrite N, Hmd, Hi.
    replace (k =? 0)%Z with false by (symmetry; apply Z.eqb_neq; lia).
    now rewrite E3, A.
Qed.

Lemma X5_witness :
  let w := world_answering response_minor_first in
  let st := stored response_minor_first configured in
  exists reply,
    V1.handler w (fix_request (L "2")) st
    = (st, [wrapped_post (L "fix") (fix_query 24 (detail issue_alt)) st;
            Markdown reply]).
Proof.
  intros w st.
  destruct (X5_fix_in_range w 2%Z st (recorded_stored _ _)
              (conj (proj1 (Z.leb_le 1 2) eq_refl)
                 (proj1 (Z.leb_le 2 2) eq_refl)))
    as (v & Ev & H & _).
  injection Ev as <-.
  exact (H (L "2") eq_refl).
Defined.

(** X6. After a scan that reports no violation, every [/fix], whatever its
    text, is refused with guidance: nothing is sent and the state is as it
    was. *)
Theorem X6_nothing_to_fix r w n st :
  tagged_issues r = [] ->
  exists text,
    V1.handler w (fix_request n) (stored r st)
    = (stored r st, guidance text)
    /\ (text = V1.msg_invalid_issue \/ text = msg_no_detail icons).
Proof.
  intro H.
  assert (V : violations (detailedScanResults (stored r st)) = []).
  { cbn [stored update_scanResults update_detailedScanResults
           detailedScanResults].
    rewrite extract_violations. unfold violations_in_response_order.
    now rewrite H. }
  rewrite V1_fix.
  replace (length (scanResults (stored r st)) =? 0) with false.
  - destruct (parseInt n) as [k|].
    + destruct (fix_at_out_of_range icons V1.msg_invalid_issue (fix_query 24)
                  w k (stored r st)) as [E|E].
      * rewrite V. simpl. lia.
      * rewrite E. exists V1.msg_invalid_issue. split; [reflexivity|now left].
      * rewrite E. exists (msg_no_detail icons). split; [reflexivity|now right].
    + exists V1.msg_invalid_issue. split; [reflexivity|now left].
  - cbn [stored update_scanResults scanResults].
    now rewrite formatScanResults_length.
Qed.

Lemma X6_witness :
  exists text,
    V1.handler (world_answering response_clean) (fix_request (L "1"))
      (stored response_clean configured)
    = (stored response_clean configured, guidance text)
    /\ (text = V1.msg_invalid_issue \/ text = msg_no_detail icons).
Proof.
  exact (X6_nothing_to_fix response_clean (world_answering response_clean)
           (L "1") configured eq_refl).
Defined.

(** ** What a turn leaves alone, sends and says *)

(** X7. No handler ever writes the connection settings: the API URL and the
    API key are the same after every turn of every version.  The first two
    versions keep no history either. *)
Theorem X7_settings_untouched w request st :
  (apiUrl (fst (V1.handler w request st)) = apiUrl st
   /\ apiKey (fst (V1.handler w request st)) = apiKey st
   /\ previousCommands (fst (V1.handler w request st)) = previousCommands st)
  /\ (apiUrl (fst (V2.handler w request st)) = apiUrl st
      /\ apiKey (fst (V2.handler w request st)) = apiKey st
      /\ previousCommands (fst (V2.handler w request st))
         = previousCommands st)
  /\ (apiUrl (fst (V3.handler w request st)) = apiUrl st
      /\ apiKey (fst (V3.handler w request st)) = apiKey st)
  /\ (apiUrl (fst (V4.handler w request st)) = apiUrl st
      /\ apiKey (fst (V4.handler w request st)) = apiKey st).
Proof.
  split; [|split; [|split]].
  - destruct (V1_state w request st) as [->|(r & ->)]; now repeat split.
  - destruct (V2_state w request st) as [->|(r & ->)]; now repeat split.
  - destruct (V3_state w request st) as [->|(c & [->|(r & ->)])];
      now repeat split.
  - destruct (V4_state w request st) as [->|(c & [->|(r & ->)])];
      now repeat split.
Qed.

Lemma posts_app a b : posts (a ++ b) = posts a + posts b.
Proof. unfold posts. now rewrite filter_app, length_app. Qed.

Ltac count := unfold posts, guidance in *; simpl in *; lia.

Lemma tidy_guidance text : tidy (guidance text).
Proof. split; [now exists [], text|count]. Qed.

Lemma query_net w apiUrl command apiKey query :
  posts (fst (queryAccessibilityApi w apiUrl command apiKey query)) <= 1.
Proof.
  unfold queryAccessibilityApi.
  destruct (if startsWith query (L "{") then JSON_parse w query
            else inr (JObject [(L "query", JString query)])) as [e|body].
  - count.
  - destruct (post_query w _ body apiKey); count.
Qed.

Lemma tidy_ask w command query failed st : tidy (ask w command query failed st).
Proof.
  unfold ask.
  pose proof (query_net w (apiUrl st) command (apiKey st) query) as N.
  destruct (queryAccessibilityApi w (apiUrl st) command (apiKey st) query)
    as [net [error|data]]; cbn [fst] in N;
    [|destruct (is_object data)];
    (split; [eexists net, _; reflexivity|rewrite posts_app; count]).
Qed.

Lemma tidy_fix_at ic invalid query w fixIndex st :
  tidy (fix_at ic invalid query w fixIndex st).
Proof.
  unfold fix_at. destruct fixIndex as [k|]; [|apply tidy_guidance].
  destruct ((k <? 0)%Z || (Z.of_nat (length (scanResults st)) <=? k)%Z);
    [apply tidy_guidance|].
  destruct (at_index (violations (detailedScanResults st)) (k - 1));
    [apply tidy_ask|apply tidy_guidance].
Qed.

Lemma scan_net w apiUrl apiKey target :
  posts (fst (performAccessibilityScan w apiUrl apiKey target)) <= 1.
Proof.
  unfold performAccessibilityScan.
  destruct apiKey; [count|]. destruct apiUrl; [count|].
  destruct (post_scan w _ _ _); count.
Qed.

Lemma intent_net w apiUrl apiKey query results commands :
  posts (fst (analyzeIntent w apiUrl apiKey query results commands)) <= 1.
Proof.
  unfold analyzeIntent.
  destruct apiKey; [count|]. destruct apiUrl; [count|].
  destruct (post_intent w _ _ _); count.
Qed.

Lemma tidy_scan ic hint w target st :
  tidy (snd (scan_and_store ic hint w target st)).
Proof.
  unfold scan_and_store.
  pose proof (scan_net w (apiUrl st) (apiKey st) target) as N.
  destruct (performAccessibilityScan w (apiUrl st) (apiKey st) target)
    as [net [error|r]]; cbn [fst snd] in *;
    (split;
     [eexists (_ :: net), _; reflexivity
     |change (?e :: net ++ ?l) with ([e] ++ net ++ l);
      rewrite !posts_app; count]).
Qed.

Lemma tidy_V1 w request st : tidy (snd (V1.handler w request st)).
Proof.
  unfold V1.handler.
  branches; cbn [snd];
    try apply tidy_guidance; try apply tidy_ask; try apply tidy_fix_at;
    apply tidy_scan.
Qed.

Lemma detectIntent_command q :
  command (detectIntent q) = L "scan"
  \/ command (detectIntent q) = L "fix"
  \/ command (detectIntent q) = L "explain".
Proof.
  unfold detectIntent.
  destruct (exec urlPattern (trim (toLowerCase q))); [now left|].
  destruct (test fixPattern (trim (toLowerCase q)));
    [right; now left|right; now right].
Qed.

Lemma tidy_V2 w request st : tidy (snd (V2.handler w request st)).
Proof.
  unfold V2.handler.
  destruct (detectIntent_command (trim (prompt request))) as [E|[E|E]];
    rewrite E;
    [change (str_eqb (L "scan") (L "scan")) with true
    |change (str_eqb (L "fix") (L "scan")) with false;
     change (str_eqb (L "fix") (L "fix")) with true
    |change (str_eqb (L "explain") (L "scan")) with false;
     change (str_eqb (L "explain") (L "fix")) with false;
     change (str_eqb (L "explain") (L "explain")) with true];
    cbv iota; branches; cbn [snd];
    try apply tidy_guidance; try apply tidy_ask; try apply tidy_fix_at;
    apply tidy_scan.
Qed.

Lemma dispatch_posts_V3 w ia st : posts (snd (V3.dispatch w ia st)) <= 1.
Proof.
  unfold V3.dispatch, fix_case, explain_case.
  branches; cbn [snd]; try (count);
    try apply tidy_ask; try apply tidy_fix_at; apply tidy_scan.
Qed.

Lemma dispatch_posts_V4 w ia st : posts (snd (V4.dispatch w ia st)) <= 1.
Proof.
  unfold V4.dispatch, fix_case, explain_case.
  branches; cbn [snd]; try (count);
    try apply tidy_ask; try apply tidy_fix_at; apply tidy_scan.
Qed.

(** X8. A turn of the first two versions sends at most one request and
    always ends with a message on the chat stream.  A turn of the versions
    that ask the API for the intent sends at most two requests, and at most
    one when the command is explicit. *)
Theorem X8_requests_per_turn w request st :
  tidy (snd (V1.handler w request st))
  /\ tidy (snd (V2.handler w request st))
  /\ posts (snd (V3.handler w request st)) <= 2
  /\ posts (snd (V4.handler w request st)) <= 2
  /\ (V4.is_explicit request <> None ->
      posts (snd (V4.handler w request st)) <= 1).
Proof.
  split; [apply tidy_V1|]. split; [apply tidy_V2|].
  assert (H4 : forall bound,
             posts (fst (V4.resolve w request st)) <= bound ->
             posts (snd (V4.handler w request st)) <= bound + 1).
  { intros bound N. unfold V4.handler.
    destruct (V4.resolve w request st) as [net [error|ia]]; cbn [fst] in N.
    - cbn [snd]. rewrite posts_app. count.
    - pose proof (dispatch_posts_V4 w ia
                    (remember (IntentAnalysisResult.command ia) st)) as D.
      destruct (V4.dispatch w ia _) as [st' out]. cbn [snd] in *.
      rewrite posts_app. lia. }
  split; [|split].
  - unfold V3.handler.
    pose proof (intent_net w (apiUrl st) (apiKey st) (trim (prompt request))
                  (scanResults st) (slice_last 5 (previousCommands st))) as N.
    destruct (analyzeIntent w (apiUrl st) (apiKey st) (trim (prompt request))
                (scanResults st) (slice_last 5 (previousCommands st)))
      as [net [error|ia]]; cbn [fst] in N.
    + cbn [snd]. rewrite posts_app. count.
    + pose proof (dispatch_posts_V3 w ia
                    (remember (IntentAnalysisResult.command ia) st)) as D.
      destruct (V3.dispatch w ia _) as [st' out]. cbn [snd] in *.
      rewrite posts_app. lia.
  - apply (H4 1). unfold V4.resolve.
    destruct (V4.is_explicit request); [count|apply intent_net].
  - intro E. apply (H4 0). unfold V4.resolve.
    destruct (V4.is_explicit request); [count|contradiction].
Qed.

Lemma X8_witness :
  posts (snd (V4.handler (world_answering response_one)
                (explicit_request (L "scan") example_org) configured)) <= 1.
Proof.
  apply (proj2 (proj2 (proj2 (proj2
           (X8_requests_per_turn (world_answering response_one)
              (explicit_request (L "scan") example_org) configured))))).
  discriminate.
Defined.

(** ** api-client.ts: what a query call sends and throws *)



(** ** Missing configuration *)

Lemma V4_resolve_implicit w request st :
  V4.is_explicit request = None ->
  V4.resolve w request st
  = analyzeIntent w (apiUrl st) (apiKey st) (trim (prompt request))
      (scanResults st) (slice_last 5 (previousCommands st)).
Proof. intro H. unfold V4.resolve. now rewrite H. Qed.

(** X10. Without an API key a scan is refused before any request: the turn
    shows the scanning notice and the key-not-configured failure, sends
    nothing and changes nothing; with a key but no API URL it is the
    URL-not-configured failure.  The intent analysis checks the same way, so
    a free-form utterance without a key gets the general error, and the
    history is not written. *)
Theorem X10_unconfigured_sends_nothing w st :
  let scanning target :=
    Markdown (searching icons ++ L " Scanning " ++ target
              ++ L " for accessibility issues...") in
  forall message,
    missing_setting st = Some message ->
    (forall target,
        target <> [] -> URL_parses w target = true ->
        V1.handler w (scan_request target) st
        = (st, [scanning target;
                Markdown (scan_failed_text icons (OtherError message))]))
    /\ (forall request,
          V4.is_explicit request = None ->
          V4.handler w request st
          = (st, [Markdown (msg_general_error (OtherError message))])).
Proof.
  intros scanning message H. unfold missing_setting in H.
  assert (S : forall target,
             performAccessibilityScan w (apiUrl st) (apiKey st) target
             = ([], inl (OtherError message))).
  { intro target. unfold performAccessibilityScan.
    destruct (apiKey st); [now injection H as <-|].
    destruct (apiUrl st); [now injection H as <-|discriminate]. }
  assert (A : forall query results commands,
             analyzeIntent w (apiUrl st) (apiKey st) query results commands
             = ([], inl (OtherError message))).
  { intros query results commands. unfold analyzeIntent.
    destruct (apiKey st); [now injection H as <-|].
    destruct (apiUrl st); [now injection H as <-|discriminate]. }
  split.
  - intros target Ht Hu. rewrite V1_scan by assumption.
    unfold scan_and_store. now rewrite S.
  - intros request E. unfold V4.handler.
    now rewrite (V4_resolve_implicit w request st E), A.
Qed.

Lemma X10_witness :
  let st := initial_state (L "http://localhost:8000") [] in
  V4.handler (world_answering response_one) (utterance (L "scan my site")) st
  = (st, [Markdown (msg_general_error (OtherError msg_no_api_key))]).
Proof.
  intro st.
  exact (proj2 (X10_unconfigured_sends_nothing (world_answering response_one)
                  st msg_no_api_key eq_refl)
           (utterance (L "scan my site")) eq_refl).
Defined.

(** ** extension.ts, last version: explicit commands *)

(** X11. In the last version an explicit [/fix] never reaches the API,
    whatever number follows it: the intent built for an explicit command
    carries no issue number, so the turn ends in guidance (scan first, or
    which-issue), with [fix] appended to the history. *)
Theorem X11_explicit_fix_never_queries w prompt st :
  V4.handler w (explicit_request (L "fix") prompt) st
  = (remember (L "fix") st,
     guidance (if length (scanResults st) =? 0 then msg_no_scan3
               else msg_undetermined)).
Proof.
  unfold V4.handler, V4.resolve, explicit_request.
  change (V4.is_explicit {| request_command := Some (L "fix");
                            prompt := prompt |}) with (Some (L "fix")).
  cbv iota beta. cbn [IntentAnalysisResult.command].
  unfold V4.dispatch. cbn [IntentAnalysisResult.command].
  change (str_eqb (L "fix") (L "scan")) with false.
  change (str_eqb (L "fix") (L "fix")) with true. cbv iota.
  unfold fix_case. cbn [IntentAnalysisResult.metadata issue_number_or
                          Metadata.issue_number].
  change (scanResults (remember (L "fix") st)) with (scanResults st).
  now destruct (length (scanResults st) =? 0).
Qed.

(** ** extension.ts, last version: [normalizeUrl] *)



Lemma trimStart_trim u : trimStart (trim u) = trim u.
Proof. unfold trim. apply trimStart_trimEnd. Qed.







(** ** formatters.ts: the rendering of an answer *)

Lemma format_answer toString a e g x :
  Formatters.formatAccessibilityResponse toString (answer_of a e g x)
  = join nl
      (Formatters.sections
         (Formatters.shown a (L "No answer provided"))
         (Formatters.shown e (L "No explanation provided"))
         (Formatters.shown g (L "No guidelines provided"))
         (Formatters.shown x (L "No examples provided"))).
Proof. reflexivity. Qed.

Lemma shown_trim text fallback :
  Formatters.shown (trim text) fallback = Formatters.shown text fallback.
Proof. unfold Formatters.shown. now rewrite trim_idem. Qed.

Lemma shown_blank text fallback :
  blank text -> Formatters.shown text fallback = fallback.
Proof. intro B. unfold Formatters.shown. now rewrite (trim_blank text B). Qed.

(** X14. For an answer of the declared type (four strings) the rendering
    does not depend on white space around a field: the answer renders as the
    answer with every field trimmed.  A field that is blank renders as if it
    held the fallback text of that field.  [String] of the platform is never
    consulted. *)
Theorem X14_answer_rendering toString a e g x :
  let render := Formatters.formatAccessibilityResponse toString in
  render (answer_of a e g x)
  = render (answer_of (trim a) (trim e) (trim g) (trim x))
  /\ (blank a ->
      render (answer_of a e g x)
      = render (answer_of (L "No answer provided") e g x))
  /\ (blank e ->
      render (answer_of a e g x)
      = render (answer_of a (L "No explanation provided") g x))
  /\ (blank g ->
      render (answer_of a e g x)
      = render (answer_of a e (L "No guidelines provided") x))
  /\ (blank x ->
      render (answer_of a e g x)
      = render (answer_of a e g (L "No examples provided")))
  /\ (forall toString',
        render (answer_of a e g x)
        = Formatters.formatAccessibilityResponse toString' (answer_of a e g x)).
Proof.
  intro render. subst render. rewrite !format_answer.
  repeat split.
  - now rewrite !shown_trim.
  - intro B. now rewrite (shown_blank a _ B).
  - intro B. now rewrite (shown_blank e _ B).
  - intro B. now rewrite (shown_blank g _ B).
  - intro B. now rewrite (shown_blank x _ B).
Qed.

Lemma X14_witness :
  Formatters.formatAccessibilityResponse (fun _ => [])
    (answer_of (L "  ") (L "e") (L "g") (L "x"))
  = Formatters.formatAccessibilityResponse (fun _ => [])
      (answer_of (L "No answer provided") (L "e") (L "g") (L "x")).
Proof.
  refine (proj1 (proj2 (X14_answer_rendering (fun _ => []) (L "  ") (L "e")
                          (L "g") (L "x"))) _).
  apply blank_forallb. reflexivity.
Defined.

Lemma startsWith_app p s : startsWith (p ++ s) p = true.
Proof.
  induction p as [|c p IH]; [reflexivity|]. simpl.
  now rewrite Ascii.eqb_refl.
Qed.

(** X15. On a value that passes the handlers' check (a non-null object or
    array) the rendering never answers with the no-response or invalid-type
    errors.  It is the missing-fields error exactly when one of [answer],
    [explanation], [guidelines], [examples] is absent, and then names the
    absent fields, in that order; otherwise it is the response layout. *)
Theorem X15_missing_fields toString response :
  is_object response = true ->
  let text := Formatters.formatAccessibilityResponse toString response in
  let missing := filter (Formatters.is_missing response) Formatters.fields in
  text <> Formatters.msg_no_response
  /\ text <> Formatters.msg_invalid_type
  /\ (missing <> [] ->
      text = Formatters.msg_missing ++ join (L ", ") missing)
  /\ (missing = [] ->
      startsWith text (L "# Accessibility Response") = true)
  /\ (startsWith text Formatters.msg_missing = true <-> missing <> []).
Proof.
  intros O text missing.
  assert (T : Formatters.truthy response = true)
    by (destruct response; try discriminate O; reflexivity).
  assert (E : text
              = if 0 <? length missing
                then Formatters.msg_missing ++ join (L ", ") missing
                else join nl
                       (Formatters.sections
                          (Formatters.shown
                             (Formatters.validated toString response
                                (L "answer")) (L "No answer provided"))
                          (Formatters.shown
                             (Formatters.validated toString response
                                (L "explanation"))
                             (L "No explanation provided"))
                          (Formatters.shown
                             (Formatters.validated toString response
                                (L "guidelines"))
                             (L "No guidelines provided"))
                          (Formatters.shown
                             (Formatters.validated toString response
                                (L "examples")) (L "No examples provided")))).
  { unfold text, Formatters.formatAccessibilityResponse.
    now rewrite T, O. }
  destruct missing as [|f fs] eqn:M; cbn [length Nat.ltb Nat.leb] in E;
    rewrite E; (split; [|split; [|split; [|split]]]).
  - intro H. now apply (f_equal (fun t => nth 0 t "000"%char)) in H.
  - intro H. now apply (f_equal (fun t => nth 0 t "000"%char)) in H.
  - intro H. now contradiction H.
  - reflexivity.
  - split; [discriminate|intro H; now contradiction H].
  - intro H. now apply (f_equal (fun t => nth 11 t "000"%char)) in H.
  - intro H. now apply (f_equal (fun t => nth 11 t "000"%char)) in H.
  - reflexivity.
  - discriminate.
  - split; [discriminate|intros _; apply startsWith_app].
Qed.

Lemma X15_witness :
  Formatters.formatAccessibilityResponse (fun _ => [])
    (JObject [(L "examples", JString (L "<img alt>"));
              (L "answer", JString (L "Add alt text"))])
  = Formatters.msg_missing ++ L "explanation, guidelines".
Proof.
  refine (proj1 (proj2 (proj2 (X15_missing_fields (fun _ => [])
                                 (JObject [(L "examples", JString (L "<img alt>"));
                                           (L "answer", JString (L "Add alt text"))])
                                 eq_refl))) _).
  discriminate.
Defined.

(** ** formatters.ts: severity keys *)





(** ** config.ts: what initialisation leaves in the state *)

Lemma str_eqb_eq a b : str_eqb a b = true <-> a = b.
Proof.
  unfold str_eqb. rewrite String.eqb_eq. split; [|now intros ->].
  intro H. apply (f_equal list_ascii_of_string) in H.
  now rewrite !list_ascii_of_string_of_list_ascii in H.
Qed.





(** X18. Initialisation ends by telling whether the API is up, and stores
    the same verdict: the extension reports itself active exactly when the
    health end point of the chosen URL answers with status [healthy]; a
    failed call or any other answer gives the could-not-connect error and a
    stored [false]. *)
Theorem X18_health_verdict host g :
  let url := or_str (Config.apiEndPoint host) Config.default_url in
  let healthy :=
    opt_eqb str_eqb
      (match Config.get_health host (url ++ L "/health") with
       | inr status => status
       | inl _ => None
       end) (L "healthy") in
  Config.apiHealth (fst (Config.initializeExtension host g)) = Some healthy
  /\ last (snd (Config.initializeExtension host g)) Config.InputBox
     = (if healthy then Config.Information (L "Axess AI is active!")
        else Config.Error
               (L "Axess AI could not connect to the accessibility API."))
  /\ (healthy = true
      <-> Config.get_health host (url ++ L "/health")
          = inr (Some (L "healthy")))
  /\ (forall url' g',
        snd (Config.checkApiHealth host url' g')
        = true
        <-> Config.get_health host (url' ++ L "/health")
            = inr (Some (L "healthy"))).
Proof.
  intros url healthy.
  assert (C : forall url' g',
             snd (Config.checkApiHealth host url' g') = true
             <-> Config.get_health host (url' ++ L "/health")
                 = inr (Some (L "healthy"))).
  { intros url' g'. unfold Config.checkApiHealth.
    destruct (Config.get_health host (url' ++ L "/health")) as [e|[s|]];
      cbn [snd opt_eqb]; try (split; discriminate).
    rewrite str_eqb_eq. split; [now intros ->|now intros [= ->]]. }
  split; [|split; [|split; [|exact C]]].
  - unfold Config.initializeExtension, Config.checkApiHealth.
    fold url. subst healthy.
    destruct (or_str (Config.openApiKey host) []);
      [destruct (Config.input host) as [[|c r]|]|];
      destruct (Config.get_health host (url ++ L "/health")); reflexivity.
  - unfold Config.initializeExtension, Config.checkApiHealth.
    fold url. subst healthy.
    destruct (or_str (Config.openApiKey host) []);
      [destruct (Config.input host) as [[|c r]|]|];
      destruct (Config.get_health host (url ++ L "/health")); reflexivity.
  - subst healthy.
    destruct (Config.get_health host (url ++ L "/health")) as [e|[s|]];
      cbn [opt_eqb]; try (split; discriminate).
    rewrite str_eqb_eq. split; [now intros ->|now intros [= ->]].
Qed.

Lemma X18_witness :
  Config.apiHealth (fst (Config.initializeExtension host_without_key fresh))
  = Some true.
Proof.
  exact (proj1 (X18_health_verdict host_without_key fresh)).
Defined.

(** ** extension.ts, later versions: what the intent analysis is told *)




(** ** The fix command out of range, in the later versions *)



(** ** extension.ts, second version: the scan of an utterance *)


